(** * GameCube intro animation: the falling, bouncing and rolling cube

    A shallow embedding of [GameCubeStartup] (App.tsx) and of the spinning
    cube variant [App], together with the properties of the motion state
    machine.

    JavaScript numbers are modelled as exact real numbers ([R]): the
    properties below are about the arithmetic the program writes down, not
    about its binary64 rounding (the module [Binary64] at the end of the
    definitions evaluates the two frame counters in binary64).  Rounding
    moves the landing of the cube by one frame: ninety increments of
    [1 / 60] make exactly [1.5] over the reals and slightly less in
    binary64, so the cube lands on the 90th frame update here and on the
    91st in the browser.  Traces named below therefore run 90 frame
    callbacks after the set-up call (91 updates), after which the cube has
    landed either way.  [Math.PI], [Math.sin], [Math.cos], [Math.abs]
    and [Math.min] are [PI], [sin], [cos], [Rabs] and [Rmin].  The closure
    variables of the effect ([time], [landed], [rolling], [cubeX], [cubeZ])
    and the mutable three.js objects it owns ([cube], [camera], [renderer])
    become the fields of one explicit state record; every handler is a
    function from state to state. *)

From Stdlib Require Import Reals Lra Lia ZArith String List Bool Floats.
Import ListNotations.

Local Open Scope R_scope.

(** ** Numbers: the comparisons of the source as boolean tests *)

Module Num.

(** [x < y] *)
Definition ltb (x y : R) : bool := if Rlt_dec x y then true else false.

(** [x > y] *)
Definition gtb (x y : R) : bool := if Rgt_dec x y then true else false.

(** [x >= y] *)
Definition geb (x y : R) : bool := if Rge_dec x y then true else false.

(** [x !== y] *)
Definition neb (x y : R) : bool := if Req_dec_T x y then false else true.

End Num.

(** ** three.js objects, reduced to the fields the program reads or writes *)

(** [THREE.Vector3] and [THREE.Euler]: three numeric components; the
    constructor is named after the [set(x, y, z)] method. *)
Module Vector3.

Record t : Type := set { x : R; y : R; z : R }.

Definition with_x (v : t) (a : R) : t := set a (y v) (z v).
Definition with_y (v : t) (a : R) : t := set (x v) a (z v).
Definition with_z (v : t) (a : R) : t := set (x v) (y v) a.

End Vector3.

(** [THREE.Mesh]: [cube.position] and [cube.rotation]. *)
Record Mesh : Type := mkMesh {
  position : Vector3.t;
  rotation : Vector3.t
}.

(** [THREE.PerspectiveCamera]: the [aspect] property, and the aspect ratio
    from which [updateProjectionMatrix] last rebuilt the projection matrix. *)
Record Camera : Type := mkCamera {
  aspect : R;
  projectionAspect : R
}.

Definition updateProjectionMatrix (c : Camera) : Camera :=
  mkCamera (aspect c) (aspect c).

(** [THREE.WebGLRenderer]: the output size given to [setSize]. *)
Record Renderer : Type := mkRenderer {
  width : Z;
  height : Z
}.

Definition setSize (w h : Z) (_ : Renderer) : Renderer := mkRenderer w h.

(** The host element [mountRef.current]: [None] when the ref is empty,
    otherwise its [clientWidth] and [clientHeight] (integral pixels). *)
Record Element : Type := mkElement {
  clientWidth : Z;
  clientHeight : Z
}.

Definition MountRef : Type := option Element.

(** ** The falling variant: [GameCubeStartup] *)

(** The rolling record [{ dx, dz, angle }]. *)
Module Rolling.

Record t : Type := mk { dx : R; dz : R; angle : R }.

End Rolling.

Record State : Type := mkState {
  time : R;
  landed : bool;
  rolling : option Rolling.t;
  cubeX : R;
  cubeZ : R;
  cube : Mesh;
  camera : Camera;
  renderer : Renderer
}.

(** Field updates ([s.f = v] in the source). *)
Definition set_time (v : R) (s : State) : State :=
  mkState v (landed s) (rolling s) (cubeX s) (cubeZ s) (cube s) (camera s) (renderer s).
Definition set_landed (v : bool) (s : State) : State :=
  mkState (time s) v (rolling s) (cubeX s) (cubeZ s) (cube s) (camera s) (renderer s).
Definition set_rolling (v : option Rolling.t) (s : State) : State :=
  mkState (time s) (landed s) v (cubeX s) (cubeZ s) (cube s) (camera s) (renderer s).
Definition set_cubeX (v : R) (s : State) : State :=
  mkState (time s) (landed s) (rolling s) v (cubeZ s) (cube s) (camera s) (renderer s).
Definition set_cubeZ (v : R) (s : State) : State :=
  mkState (time s) (landed s) (rolling s) (cubeX s) v (cube s) (camera s) (renderer s).
Definition set_cube (v : Mesh) (s : State) : State :=
  mkState (time s) (landed s) (rolling s) (cubeX s) (cubeZ s) v (camera s) (renderer s).
Definition set_camera (v : Camera) (s : State) : State :=
  mkState (time s) (landed s) (rolling s) (cubeX s) (cubeZ s) (cube s) v (renderer s).
Definition set_renderer (v : Renderer) (s : State) : State :=
  mkState (time s) (landed s) (rolling s) (cubeX s) (cubeZ s) (cube s) (camera s) v.

Definition set_position (v : Vector3.t) (s : State) : State :=
  set_cube (mkMesh v (rotation (cube s))) s.
Definition set_rotation (v : Vector3.t) (s : State) : State :=
  set_cube (mkMesh (position (cube s)) v) s.

(** *** Constants *)

Definition largeCubeSize : R := 3.
Definition cubeSize : R := 1.
Definition fallDuration : R := 1.5.
Definition startY : R := 8.
Definition targetY : R := cubeSize / 2.
Definition rollSpeed : R := PI / 20.
Definition maxAngle : R := PI / 2.

(** *** Easing curves *)

(** [easeOutBounce]: each [t -= c] rebinds [t] before the product is
    formed, so a later segment is [n1 * (t - c) * (t - c) + k]. *)
Definition easeOutBounce (t : R) : R :=
  let n1 := 7.5625 in
  let d1 := 2.75 in
  if Num.ltb t (1 / d1) then n1 * t * t
  else if Num.ltb t (2 / d1) then
    let t := t - 1.5 / d1 in n1 * t * t + 0.75
  else if Num.ltb t (2.5 / d1) then
    let t := t - 2.25 / d1 in n1 * t * t + 0.9375
  else
    let t := t - 2.625 / d1 in n1 * t * t + 0.984375.

Definition easeOutQuad (t : R) : R := 1 - (1 - t) * (1 - t).

(** *** Roll requests *)

(** Truthiness of [rolling]: an object is truthy, [null] is not. *)
Definition truthy {A : Type} (o : option A) : bool :=
  match o with
  | Some _ => true
  | None => false
  end.

Definition rollCube (dx dz : R) (s : State) : State :=
  if negb (landed s) || truthy (rolling s) then s
  else
    let newX := cubeX s + dx * cubeSize in
    let newZ := cubeZ s + dz * cubeSize in
    if Num.gtb (Rabs newX) (largeCubeSize / 2 - cubeSize / 2)
       || Num.gtb (Rabs newZ) (largeCubeSize / 2 - cubeSize / 2)
    then s
    else set_rolling (Some (Rolling.mk dx dz 0)) s.

(** The [keydown] listener: four independent tests of [e.key]. *)
Definition onKeyDown (key : string) (s : State) : State :=
  let s := if String.eqb key "w" then rollCube 0 (-1) s else s in
  let s := if String.eqb key "s" then rollCube 0 1 s else s in
  let s := if String.eqb key "a" then rollCube (-1) 0 s else s in
  let s := if String.eqb key "d" then rollCube 1 0 s else s in
  s.

(** *** The frame update [animate] *)

(** The [// Falling] block. *)
Definition fall (s : State) : State :=
  if negb (landed s) then
    let s := set_time (time s + 1 / 60) s in
    if Num.ltb (time s) fallDuration then
      let progress := time s / fallDuration in
      let eased := easeOutBounce progress in
      let s := set_position
                 (Vector3.with_y (position (cube s))
                    (startY - (startY - targetY) * eased)) s in
      let s := set_rotation
                 (Vector3.with_x (rotation (cube s)) (sin (time s * 3) * 0.05)) s in
      let s := set_rotation
                 (Vector3.with_z (rotation (cube s)) (cos (time s * 2) * 0.05)) s in
      s
    else
      let s := set_position (Vector3.with_y (position (cube s)) targetY) s in
      let s := set_rotation (Vector3.set 0 0 0) s in
      set_landed true s
  else s.

(** The visual angle of a roll whose accumulated angle is [angle]. *)
Definition visualAngle (angle : R) : R :=
  let theta := Rmin angle maxAngle in
  let progress := theta / maxAngle in
  theta * easeOutQuad progress.

(** The [// Rolling] block up to and including [// Apply rotation]:
    the angle advances and the cube is posed on its pivot arc. *)
Definition rollPose (r : Rolling.t) (s : State) : State :=
  let dx := Rolling.dx r in
  let dz := Rolling.dz r in
  let r := Rolling.mk dx dz (Rolling.angle r + rollSpeed) in
  let s := set_rolling (Some r) s in
  let theta := visualAngle (Rolling.angle r) in
  let pivotOffset := cubeSize / 2 in
  let cosTheta := cos theta in
  let sinTheta := sin theta in
  let offsetX := dx * pivotOffset * (1 - cosTheta) in
  let offsetY := pivotOffset * sinTheta in
  let offsetZ := dz * pivotOffset * (1 - cosTheta) in
  let s := set_position
             (Vector3.set (cubeX s + offsetX) (targetY + offsetY) (cubeZ s + offsetZ)) s in
  if Num.neb dx 0 then
    set_rotation (Vector3.with_z (rotation (cube s)) (- theta * dx)) s
  else if Num.neb dz 0 then
    set_rotation (Vector3.with_x (rotation (cube s)) (theta * dz)) s
  else s.

(** The [// Snap to grid] block. *)
Definition snapToGrid (dx dz : R) (s : State) : State :=
  let s := set_cubeX (cubeX s + dx * cubeSize) s in
  let s := set_cubeZ (cubeZ s + dz * cubeSize) s in
  let s := set_position (Vector3.set (cubeX s) targetY (cubeZ s)) s in
  let s := set_rotation (Vector3.set 0 0 0) s in
  set_rolling None s.

(** The [// Rolling] block; the completion test reads the angle that
    [rollPose] has just stored. *)
Definition roll (s : State) : State :=
  match rolling s with
  | None => s
  | Some r =>
      let s := rollPose r s in
      if Num.geb (Rolling.angle r + rollSpeed) maxAngle
      then snapToGrid (Rolling.dx r) (Rolling.dz r) s
      else s
  end.

(** [animate]: scheduling the next frame and rendering leave the state as
    it is. *)
Definition animate (s : State) : State := roll (fall s).

(** *** Resize *)

Definition handleResize (mountRef : MountRef) (s : State) : State :=
  match mountRef with
  | None => s
  | Some el =>
      let s := set_camera
                 (mkCamera (IZR (clientWidth el) / IZR (clientHeight el))
                    (projectionAspect (camera s))) s in
      let s := set_camera (updateProjectionMatrix (camera s)) s in
      set_renderer (setSize (clientWidth el) (clientHeight el) (renderer s)) s
  end.

(** *** Set-up and the event loop *)

(** The state built by the effect before [animate()] is first called. *)
Definition initial (el : Element) : State :=
  let a := IZR (clientWidth el) / IZR (clientHeight el) in
  mkState 0 false None 0 (- largeCubeSize / 3)
    (mkMesh (Vector3.set 0 8 (- largeCubeSize / 3)) (Vector3.set 0 0 0))
    (mkCamera a a)
    (mkRenderer (clientWidth el) (clientHeight el)).

(** The effect calls [animate()] once itself; every later call is a frame
    callback. *)
Definition mount (el : Element) : State := animate (initial el).

Inductive Event : Type :=
| Frame
| KeyDown (key : string)
| Resize (mountRef : MountRef).

Definition step (s : State) (e : Event) : State :=
  match e with
  | Frame => animate s
  | KeyDown key => onKeyDown key s
  | Resize m => handleResize m s
  end.

Definition run (evs : list Event) (s : State) : State := fold_left step evs s.

(** States the mounted component can be in. *)
Definition reachable (s : State) : Prop :=
  exists el evs, s = run evs (mount el) \/ s = initial el.

(** Number of [Frame] events of a trace. *)
Fixpoint frames (evs : list Event) : nat :=
  match evs with
  | [] => 0
  | Frame :: evs => S (frames evs)
  | _ :: evs => frames evs
  end.

(** ** The spinning variant: [App] *)

Module Spin.

Record State : Type := mkState {
  cube : Mesh;
  camera : Camera;
  renderer : Renderer;
  frameId : Z
}.

(** [animate], given the handle [requestAnimationFrame] returns. *)
Definition animate (handle : Z) (s : State) : State :=
  let rot := rotation (cube s) in
  let rot := Vector3.with_x rot (Vector3.x rot + 0.01) in
  let rot := Vector3.with_y rot (Vector3.y rot + 0.01) in
  mkState (mkMesh (position (cube s)) rot) (camera s) (renderer s) handle.

Definition handleResize (mountRef : MountRef) (s : State) : State :=
  match mountRef with
  | None => s
  | Some el =>
      let width := clientWidth el in
      let height := clientHeight el in
      let rd := setSize width height (renderer s) in
      let cam := mkCamera (IZR width / IZR height) (projectionAspect (camera s)) in
      let cam := updateProjectionMatrix cam in
      mkState (cube s) cam rd (frameId s)
  end.

End Spin.

(** ** Predicates used in the statements *)

(** The platform bound [largeCubeSize / 2 - cubeSize / 2]. *)
Definition bound : R := largeCubeSize / 2 - cubeSize / 2.

(** The destination cell of a request passes the bounds check. *)
Definition in_bounds (dx dz : R) (s : State) : Prop :=
  Rabs (cubeX s + dx * cubeSize) <= bound /\
  Rabs (cubeZ s + dz * cubeSize) <= bound.

(** The conditions under which a request is accepted. *)
Definition acceptable (dx dz : R) (s : State) : Prop :=
  landed s = true /\ rolling s = None /\ in_bounds dx dz s.

(** The four roll vectors the [keydown] listener can request. *)
Definition directions : list (R * R) := [(0, -1); (0, 1); (-1, 0); (1, 0)].

(** The frame update has run [n] times: the clock of the fall over exact
    reals. *)
Definition clock (n : nat) (s : State) : Prop :=
  time s = INR (Nat.min n 90) / 60 /\ landed s = (90 <=? n)%nat.

(** The grid position is a cell of the 3 x 3 platform, and the cell a roll
    in progress leads to is one too. *)
Definition on_platform (s : State) : Prop :=
  exists i j : Z,
    cubeX s = IZR i /\ cubeZ s = IZR j /\
    (Z.abs i <= 1)%Z /\ (Z.abs j <= 1)%Z /\
    forall r, rolling s = Some r ->
      exists a b : Z,
        Rolling.dx r = IZR a /\ Rolling.dz r = IZR b /\
        (Z.abs (i + a) <= 1)%Z /\ (Z.abs (j + b) <= 1)%Z.

(** The cube rests on the platform: exactly at the target height, with
    exactly zero rotation. *)
Definition at_rest (s : State) : Prop :=
  Vector3.y (position (cube s)) = targetY /\
  rotation (cube s) = Vector3.set 0 0 0.

(** Before landing no roll is in progress; after landing the cube is at
    rest whenever none is. *)
Definition rests_when_idle (s : State) : Prop :=
  (landed s = false -> rolling s = None) /\
  (landed s = true -> rolling s = None -> at_rest s).

(** Monotonicity of a curve on a closed interval. *)
Definition nondecreasing_on (f : R -> R) (lo hi : R) : Prop :=
  forall a b, lo <= a -> a <= b -> b <= hi -> f a <= f b.

Definition nonincreasing_on (f : R -> R) (lo hi : R) : Prop :=
  forall a b, lo <= a -> a <= b -> b <= hi -> f b <= f a.

(** ** Sample inputs *)

(** A host element of 800 x 600 pixels. *)
Definition host : Element := mkElement 800 600.

(** The trace that lets the cube land (the set-up call of [animate] and 90
    frame callbacks make 91 frame updates, enough to land with exact and
    with binary64 arithmetic alike), presses [a] and runs one more frame. *)
Definition first_roll_frame : list Event :=
  repeat Frame 90 ++ [KeyDown "a"; Frame].

(** A landed cube on its initial cell in the last frame of a roll to the
    left. *)
Definition last_roll_frame : State :=
  mkState fallDuration true (Some (Rolling.mk (-1) 0 (9 * rollSpeed))) 0 (-1)
    (mkMesh (Vector3.set 0 targetY (-1)) (Vector3.set 0 0 0))
    (mkCamera (4 / 3) (4 / 3)) (mkRenderer 800 600).

(** A state of the spinning variant. *)
Definition spinning : Spin.State :=
  Spin.mkState (mkMesh (Vector3.set 0 0 0) (Vector3.set 0.01 0.01 0))
    (mkCamera (4 / 3) (4 / 3)) (mkRenderer 800 600) 1.

(** ** The two counters of the program in binary64

    The elapsed time and the roll angle are the only numbers the program
    accumulates over frames.  Their binary64 evaluation, and that of
    [easeOutBounce], uses no more than the IEEE operations [+], [-], [*],
    [/] and [<]. *)

Module Binary64.

(** [Math.PI]. *)
Definition PI : float := 0x1.921fb54442d18p+1%float.

Definition easeOutBounce (t : float) : float :=
  (let n1 := 7.5625 in
   let d1 := 2.75 in
   if t <? 1 / d1 then n1 * t * t
   else if t <? 2 / d1 then
     let t := t - 1.5 / d1 in n1 * t * t + 0.75
   else if t <? 2.5 / d1 then
     let t := t - 2.25 / d1 in n1 * t * t + 0.9375
   else
     let t := t - 2.625 / d1 in n1 * t * t + 0.984375)%float.

Definition fallDuration : float := 1.5%float.
Definition rollSpeed : float := (PI / 20)%float.
Definition maxAngle : float := (PI / 2)%float.

(** [time] after [n] executions of [time += 1 / 60]. *)
Definition time_after (n : nat) : float :=
  Nat.iter n (fun time => time + 1 / 60)%float 0%float.

(** [rolling.angle] after [n] executions of [rolling.angle += rollSpeed]. *)
Definition angle_after (n : nat) : float :=
  Nat.iter n (fun angle => angle + rollSpeed)%float 0%float.

End Binary64.

(** ** Further predicates *)

(** The state a reachable cube is posed in: the clock has not run
    backwards, the cube is between the platform top and its start height,
    it has not turned about the vertical axis, it only wobbles while it
    falls, it sits on its grid cell while idle and within half a cell of it
    (and at most a quarter turn over) while it rolls. *)
Definition posed (s : State) : Prop :=
  0 <= time s /\
  targetY <= Vector3.y (position (cube s)) <= startY /\
  Vector3.y (rotation (cube s)) = 0 /\
  Rabs (Vector3.x (rotation (cube s))) <= maxAngle /\
  Rabs (Vector3.z (rotation (cube s))) <= maxAngle /\
  (landed s = false ->
     Rabs (Vector3.x (rotation (cube s))) <= 0.05 /\
     Rabs (Vector3.z (rotation (cube s))) <= 0.05) /\
  (rolling s = None ->
     Vector3.x (position (cube s)) = cubeX s /\
     Vector3.z (position (cube s)) = cubeZ s) /\
  (forall r, rolling s = Some r ->
     In (Rolling.dx r, Rolling.dz r) directions /\
     0 <= Rolling.angle r < maxAngle /\
     Rabs (Vector3.x (position (cube s)) - cubeX s) <= cubeSize / 2 /\
     Rabs (Vector3.z (position (cube s)) - cubeZ s) <= cubeSize / 2 /\
     targetY <= Vector3.y (position (cube s)) <= targetY + cubeSize / 2).

(** The events of a trace that are not resizes. *)
Definition without_resizes (evs : list Event) : list Event :=
  filter (fun e => match e with Resize _ => false | _ => true end) evs.

(** The host element the handlers last measured: the one of the most
    recent resize that found [mountRef.current], the mounted one before
    any. *)
Definition last_host (el : Element) (evs : list Event) : Element :=
  fold_left (fun h e => match e with Resize (Some el') => el' | _ => h end)
    evs el.

(** A key press followed by the ten frame updates of the roll it may
    start, and a sequence of such presses. *)
Definition press (key : string) : list Event := KeyDown key :: repeat Frame 10.

Definition route (keys : list string) : list Event := concat (map press keys).

(** Keys that take a cube that has just landed on [(0, -1)] to the cell
    [(i, j)]: one step along x if needed, then [j + 1] steps along [+z]. *)
Definition keys_to (i j : Z) : list string :=
  (if (i <? 0)%Z then ["a"%string] else if (0 <? i)%Z then ["d"%string] else [])
  ++ repeat "s"%string (Z.to_nat (j + 1)).

(** The cube has landed and rests on the cell [(i, j)]. *)
Definition idle_at (i j : Z) (s : State) : Prop :=
  landed s = true /\ rolling s = None /\ cubeX s = IZR i /\ cubeZ s = IZR j.

(** The camera and the renderer replaced, everything else kept. *)
Definition with_view (c : Camera) (rd : Renderer) (s : State) : State :=
  set_renderer rd (set_camera c s).

(** ** The event loop of the spinning variant *)

Module SpinLoop.

(** The state built by the effect before [animate()] is first called.
    [frameId] is declared without a value; the first call of [animate]
    assigns it before anything reads it, so the [0] here is never seen. *)
Definition initial (el : Element) : Spin.State :=
  let a := IZR (clientWidth el) / IZR (clientHeight el) in
  Spin.mkState (mkMesh (Vector3.set 0 0 0) (Vector3.set 0 0 0))
    (mkCamera a a) (mkRenderer (clientWidth el) (clientHeight el)) 0.

(** A frame (with the handle its [requestAnimationFrame] call returns) or
    a resize. *)
Inductive Event : Type :=
| Frame (handle : Z)
| Resize (mountRef : MountRef).

Definition step (s : Spin.State) (e : Event) : Spin.State :=
  match e with
  | Frame handle => Spin.animate handle s
  | Resize m => Spin.handleResize m s
  end.

Definition run (evs : list Event) (s : Spin.State) : Spin.State :=
  fold_left step evs s.

(** The effect calls [animate()] once itself. *)
Definition mount (el : Element) (handle : Z) : Spin.State :=
  Spin.animate handle (initial el).

(** The handle of the last frame of a trace, [h] if it has none. *)
Definition last_handle (h : Z) (evs : list Event) : Z :=
  fold_left (fun h e => match e with Frame h' => h' | Resize _ => h end) evs h.

End SpinLoop.

(** ** Set-up and teardown against the browser

    The effect of each component talks to the browser through
    [appendChild] / [removeChild] on the host element,
    [addEventListener] / [removeEventListener] on [window],
    [requestAnimationFrame] / [cancelAnimationFrame] and the [dispose]
    methods of the three.js objects.  [Browser.t] records what these calls
    leave behind. *)

Module Browser.

(** The two callbacks the components register on [window]: the anonymous
    [keydown] arrow function and [handleResize]. *)
Inductive Listener : Type := KeydownListener | ResizeListener.

Definition listener_eqb (a b : Listener) : bool :=
  match a, b with
  | KeydownListener, KeydownListener => true
  | ResizeListener, ResizeListener => true
  | _, _ => false
  end.

(** Children of the host element: the renderer's canvas or a node that
    was there before. *)
Inductive Node : Type := Canvas | Other (id : nat).

(** The three.js objects with a [dispose] method the components create. *)
Inductive Resource : Type :=
| TheRenderer | Geometry | Material | LargeCubeGeometry | LargeCubeMaterial.

Record t : Type := mk {
  listeners : list Listener;
  requests : list Z;
  nextRequest : Z;
  children : list Node;
  disposed : list Resource
}.

(** Registering the same callback for the same event twice has no
    effect. *)
Definition addEventListener (l : Listener) (b : t) : t :=
  if existsb (listener_eqb l) (listeners b) then b
  else mk (listeners b ++ [l]) (requests b) (nextRequest b) (children b)
         (disposed b).

Definition removeEventListener (l : Listener) (b : t) : t :=
  mk (filter (fun l' => negb (listener_eqb l l')) (listeners b))
    (requests b) (nextRequest b) (children b) (disposed b).

(** A fresh handle is returned and its callback is pending until the next
    frame or until it is cancelled. *)
Definition requestAnimationFrame (b : t) : Z * t :=
  (nextRequest b,
   mk (listeners b) (requests b ++ [nextRequest b]) (nextRequest b + 1)
     (children b) (disposed b)).

Definition cancelAnimationFrame (handle : Z) (b : t) : t :=
  mk (listeners b) (filter (fun h => negb (Z.eqb handle h)) (requests b))
    (nextRequest b) (children b) (disposed b).

(** The browser takes the pending requests to run their callbacks. *)
Definition takeRequests (b : t) : t :=
  mk (listeners b) [] (nextRequest b) (children b) (disposed b).

Definition appendChild (n : Node) (b : t) : t :=
  mk (listeners b) (requests b) (nextRequest b) (children b ++ [n])
    (disposed b).

(** [removeChild(firstChild)] when there is a first child. *)
Definition removeFirstChild (b : t) : t :=
  mk (listeners b) (requests b) (nextRequest b) (tl (children b)) (disposed b).

Definition dispose (r : Resource) (b : t) : t :=
  mk (listeners b) (requests b) (nextRequest b) (children b)
    (disposed b ++ [r]).

(** What the browser delivers: a display refresh, a key press, a resize of
    the window (with what [mountRef.current] holds at that moment). *)
Inductive Input : Type :=
| Refresh
| Key (key : string)
| Resized (mountRef : MountRef).

Definition registered (l : Listener) (b : t) : bool :=
  existsb (listener_eqb l) (listeners b).

(** A browser in which the component has registered nothing yet: the host
    element has the children [cs], the next request handle is [h]. *)
Definition fresh (cs : list Node) (h : Z) : t := mk [] [] h cs [].

End Browser.

(** *** The falling variant, mounted *)

Module Falling.

Record t : Type := mk { state : State; browser : Browser.t }.

(** The function [animate] as the browser calls it: it requests the next
    frame, then updates the state. *)
Definition frameCallback (c : t) : t :=
  let (_, b) := Browser.requestAnimationFrame (browser c) in
  mk (animate (state c)) b.

(** The body of [useEffect]: nothing happens without a host element. *)
Definition effect (mountRef : MountRef) (b : Browser.t) : option t :=
  match mountRef with
  | None => None
  | Some el =>
      let b := Browser.appendChild Browser.Canvas b in
      let b := Browser.addEventListener Browser.KeydownListener b in
      let c := frameCallback (mk (initial el) b) in
      Some (mk (state c)
              (Browser.addEventListener Browser.ResizeListener (browser c)))
  end.

(** The function the effect returns, run with what [mountRef.current]
    holds at that moment. *)
Definition cleanup (mountRef : MountRef) (c : t) : t :=
  let b := Browser.removeEventListener Browser.ResizeListener (browser c) in
  let b := Browser.dispose Browser.TheRenderer b in
  let b := Browser.dispose Browser.Geometry b in
  let b := Browser.dispose Browser.Material b in
  let b := Browser.dispose Browser.LargeCubeGeometry b in
  let b := Browser.dispose Browser.LargeCubeMaterial b in
  let b := match mountRef with
           | Some _ => Browser.removeFirstChild b
           | None => b
           end in
  mk (state c) b.

(** The browser delivers an input to the callbacks that are registered. *)
Definition deliver (c : t) (i : Browser.Input) : t :=
  match i with
  | Browser.Refresh =>
      fold_left (fun c _ => frameCallback c) (Browser.requests (browser c))
        (mk (state c) (Browser.takeRequests (browser c)))
  | Browser.Key key =>
      if Browser.registered Browser.KeydownListener (browser c)
      then mk (onKeyDown key (state c)) (browser c) else c
  | Browser.Resized m =>
      if Browser.registered Browser.ResizeListener (browser c)
      then mk (handleResize m (state c)) (browser c) else c
  end.

Definition run (ins : list Browser.Input) (c : t) : t := fold_left deliver ins c.

(** The event a delivered input stands for. *)
Definition event_of (i : Browser.Input) : Event :=
  match i with
  | Browser.Refresh => Frame
  | Browser.Key key => KeyDown key
  | Browser.Resized m => Resize m
  end.

End Falling.

(** *** The spinning variant, mounted *)

Module Spinning.

Record t : Type := mk { state : Spin.State; browser : Browser.t }.

Definition frameCallback (c : t) : t :=
  let (handle, b) := Browser.requestAnimationFrame (browser c) in
  mk (Spin.animate handle (state c)) b.

Definition effect (mountRef : MountRef) (b : Browser.t) : option t :=
  match mountRef with
  | None => None
  | Some el =>
      let b := Browser.appendChild Browser.Canvas b in
      let c := frameCallback (mk (SpinLoop.initial el) b) in
      Some (mk (state c)
              (Browser.addEventListener Browser.ResizeListener (browser c)))
  end.

(** [while (firstChild) removeChild(firstChild)]: one removal per child. *)
Definition removeChildren (b : Browser.t) : Browser.t :=
  Nat.iter (length (Browser.children b)) Browser.removeFirstChild b.

Definition cleanup (mountRef : MountRef) (c : t) : t :=
  let b := Browser.removeEventListener Browser.ResizeListener (browser c) in
  let b := Browser.cancelAnimationFrame (Spin.frameId (state c)) b in
  let b := Browser.dispose Browser.TheRenderer b in
  let b := match mountRef with
           | Some _ => removeChildren b
           | None => b
           end in
  mk (state c) b.

Definition deliver (c : t) (i : Browser.Input) : t :=
  match i with
  | Browser.Refresh =>
      fold_left (fun c _ => frameCallback c) (Browser.requests (browser c))
        (mk (state c) (Browser.takeRequests (browser c)))
  | Browser.Key _ => c
  | Browser.Resized m =>
      if Browser.registered Browser.ResizeListener (browser c)
      then mk (Spin.handleResize m (state c)) (browser c) else c
  end.

Definition run (ins : list Browser.Input) (c : t) : t := fold_left deliver ins c.

End Spinning.

(** The number of display refreshes among the inputs. *)
Fixpoint refreshes (ins : list Browser.Input) : nat :=
  match ins with
  | [] => 0
  | Browser.Refresh :: ins => S (refreshes ins)
  | _ :: ins => refreshes ins
  end.

(** The browser as the mounted falling component leaves it after [n]
    display refreshes: both listeners registered, one frame requested. *)
Definition falling_browser (cs : list Browser.Node) (h : Z) (n : nat) : Browser.t :=
  Browser.mk [Browser.KeydownListener; Browser.ResizeListener]
    [(h + Z.of_nat n)%Z] (h + Z.of_nat n + 1)%Z (cs ++ [Browser.Canvas]) [].

(** The same for the spinning component. *)
Definition spinning_browser (cs : list Browser.Node) (h : Z) (n : nat) : Browser.t :=
  Browser.mk [Browser.ResizeListener]
    [(h + Z.of_nat n)%Z] (h + Z.of_nat n + 1)%Z (cs ++ [Browser.Canvas]) [].

(** The falling component's browser after [cleanup]: the [keydown]
    listener and the frame request are still there. *)
Definition falling_browser_after (cs : list Browser.Node) (z : Z) : Browser.t :=
  Browser.mk [Browser.KeydownListener] [z] (z + 1)%Z cs
    [Browser.TheRenderer; Browser.Geometry; Browser.Material;
     Browser.LargeCubeGeometry; Browser.LargeCubeMaterial].

(** What [cleanup] leaves of the children of the host element in the
    falling variant: with the ref still set the first child is removed. *)
Definition children_after (mountRef : MountRef) (cs : list Browser.Node)
  : list Browser.Node :=
  match mountRef with
  | Some _ => tl (cs ++ [Browser.Canvas])
  | None => cs ++ [Browser.Canvas]
  end.

(** The cube in the air: it is still on its initial cell with no roll in
    progress, and once the first frame has run its height and its wobble
    are the ones the fall block computes from the elapsed time. *)
Definition in_the_air (s : State) : Prop :=
  landed s = false ->
  rolling s = None /\ cubeX s = 0 /\ cubeZ s = - largeCubeSize / 3 /\
  Vector3.x (position (cube s)) = 0 /\
  Vector3.z (position (cube s)) = - largeCubeSize / 3 /\
  Vector3.y (rotation (cube s)) = 0 /\
  (time s = 0 \/
   (Vector3.y (position (cube s)) =
      startY - (startY - targetY) * easeOutBounce (time s / fallDuration) /\
    Vector3.x (rotation (cube s)) = sin (time s * 3) * 0.05 /\
    Vector3.z (rotation (cube s)) = cos (time s * 2) * 0.05)).

(** The trace that lets the cube land (90 frame callbacks after the
    set-up call) and presses [a]. *)
Definition roll_requested : list Event := repeat Frame 90 ++ [KeyDown "a"].

(** * Properties *)

(** ** Comparisons *)

Section NumFacts.

Variables x y : R.

Lemma ltb_true : Num.ltb x y = true <-> x < y.
Proof. unfold Num.ltb; destruct (Rlt_dec x y); split; intros; easy. Qed.

Lemma ltb_false : Num.ltb x y = false <-> y <= x.
Proof.
  unfold Num.ltb; destruct (Rlt_dec x y); split; intros; try easy; lra.
Qed.

Lemma gtb_true : Num.gtb x y = true <-> x > y.
Proof. unfold Num.gtb; destruct (Rgt_dec x y); split; intros; easy. Qed.

Lemma gtb_false : Num.gtb x y = false <-> x <= y.
Proof.
  unfold Num.gtb; destruct (Rgt_dec x y); split; intros; try easy; lra.
Qed.

Lemma geb_true : Num.geb x y = true <-> x >= y.
Proof. unfold Num.geb; destruct (Rge_dec x y); split; intros; easy. Qed.

Lemma geb_false : Num.geb x y = false <-> x < y.
Proof.
  unfold Num.geb; destruct (Rge_dec x y); split; intros; try easy; lra.
Qed.

Lemma neb_true : Num.neb x y = true <-> x <> y.
Proof. unfold Num.neb; destruct (Req_dec_T x y); split; intros; easy. Qed.

Lemma neb_false : Num.neb x y = false <-> x = y.
Proof.
  unfold Num.neb; destruct (Req_dec_T x y); split; intros; try easy.
Qed.

End NumFacts.

(** ** Roll requests (rollCube) *)

Lemma bound_eq : bound = 1.
Proof. unfold bound, largeCubeSize, cubeSize; lra. Qed.

Lemma rollCube_accept dx dz s :
  acceptable dx dz s ->
  rollCube dx dz s = set_rolling (Some (Rolling.mk dx dz 0)) s.
Proof.
  intros (Hl & Hr & Hx & Hz). unfold rollCube, bound in *.
  rewrite Hl, Hr; simpl.
  apply gtb_false in Hx, Hz. now rewrite Hx, Hz.
Qed.

Lemma rollCube_reject dx dz s :
  ~ acceptable dx dz s -> rollCube dx dz s = s.
Proof.
  intros Hn. unfold rollCube.
  destruct (landed s) eqn:Hl; simpl; [|reflexivity].
  destruct (rolling s) eqn:Hr; simpl; [reflexivity|].
  destruct (Num.gtb (Rabs (cubeX s + dx * cubeSize)) _) eqn:Hx; simpl; [reflexivity|].
  destruct (Num.gtb (Rabs (cubeZ s + dz * cubeSize)) _) eqn:Hz; simpl; [reflexivity|].
  exfalso; apply Hn. unfold acceptable, in_bounds, bound.
  apply gtb_false in Hx, Hz. auto.
Qed.

Lemma set_rolling_neq r s : rolling s = None -> set_rolling (Some r) s <> s.
Proof. intros Hr Heq. apply (f_equal rolling) in Heq. simpl in Heq. congruence. Qed.

Lemma acceptable_dec dx dz s : acceptable dx dz s \/ ~ acceptable dx dz s.
Proof.
  unfold acceptable, in_bounds.
  destruct (landed s); [|right; intros (? & _); discriminate].
  destruct (rolling s); [right; intros (_ & ? & _); discriminate|].
  destruct (Rle_dec (Rabs (cubeX s + dx * cubeSize)) bound);
    [|right; tauto].
  destruct (Rle_dec (Rabs (cubeZ s + dz * cubeSize)) bound);
    [left; auto|right; tauto].
Qed.

Ltac case_ifs :=
  repeat match goal with
         | |- context [if ?b then _ else _] => destruct b
         end.

Lemma rollCube_keeps dx dz s :
  time (rollCube dx dz s) = time s /\ landed (rollCube dx dz s) = landed s /\
  cubeX (rollCube dx dz s) = cubeX s /\ cubeZ (rollCube dx dz s) = cubeZ s /\
  cube (rollCube dx dz s) = cube s /\ camera (rollCube dx dz s) = camera s /\
  renderer (rollCube dx dz s) = renderer s.
Proof. unfold rollCube; case_ifs; simpl; auto 10. Qed.

Lemma rollCube_changes_iff dx dz s :
  rollCube dx dz s <> s <-> acceptable dx dz s.
Proof.
  destruct (acceptable_dec dx dz s) as [Ha | Hn].
  - rewrite (rollCube_accept _ _ _ Ha).
    split; [intros _; exact Ha|intros _; apply set_rolling_neq, Ha].
  - rewrite (rollCube_reject _ _ _ Hn).
    split; [intros Hs; now elim Hs|intros Ha; now elim Hn].
Qed.

Lemma rollCube_rolling dx dz s r :
  rolling s = Some r -> rolling (rollCube dx dz s) = Some r.
Proof.
  intros Hr. rewrite rollCube_reject; [exact Hr|].
  intros (_ & Hnone & _). congruence.
Qed.

(** C1: a roll request is accepted, creating the rolling record
    [{dx, dz, angle: 0}] and changing nothing else, if and only if the cube
    has landed, no roll is in progress and the destination cell passes the
    bounds check on both axes; in every other case the call leaves the
    whole state as it is, so the grid position and a roll in progress are
    untouched and a second roll never replaces an active one. *)
Theorem rollCube_accepted_iff (dx dz : R) (s : State) :
  (acceptable dx dz s ->
     rollCube dx dz s = set_rolling (Some (Rolling.mk dx dz 0)) s) /\
  (~ acceptable dx dz s -> rollCube dx dz s = s) /\
  (rollCube dx dz s <> s <-> acceptable dx dz s) /\
  cubeX (rollCube dx dz s) = cubeX s /\
  cubeZ (rollCube dx dz s) = cubeZ s /\
  (forall r, rolling s = Some r -> rolling (rollCube dx dz s) = Some r).
Proof.
  split; [apply rollCube_accept|].
  split; [apply rollCube_reject|].
  split; [apply rollCube_changes_iff|].
  split; [apply rollCube_keeps|].
  split; [apply rollCube_keeps|].
  apply rollCube_rolling.
Qed.

(** ** What each block of the frame update leaves alone *)

Lemma fall_keeps s :
  rolling (fall s) = rolling s /\ cubeX (fall s) = cubeX s /\
  cubeZ (fall s) = cubeZ s /\ camera (fall s) = camera s /\
  renderer (fall s) = renderer s.
Proof. unfold fall; case_ifs; simpl; auto. Qed.

Lemma fall_landed s : landed s = true -> fall s = s.
Proof. intros H; unfold fall; now rewrite H. Qed.

Lemma rollPose_keeps r s :
  time (rollPose r s) = time s /\ landed (rollPose r s) = landed s /\
  cubeX (rollPose r s) = cubeX s /\ cubeZ (rollPose r s) = cubeZ s /\
  camera (rollPose r s) = camera s /\ renderer (rollPose r s) = renderer s /\
  rolling (rollPose r s) =
    Some (Rolling.mk (Rolling.dx r) (Rolling.dz r) (Rolling.angle r + rollSpeed)).
Proof. unfold rollPose; case_ifs; simpl; auto 10. Qed.

Lemma rollPose_position r s :
  let theta := visualAngle (Rolling.angle r + rollSpeed) in
  position (cube (rollPose r s)) =
    Vector3.set
      (cubeX s + Rolling.dx r * (cubeSize / 2) * (1 - cos theta))
      (targetY + cubeSize / 2 * sin theta)
      (cubeZ s + Rolling.dz r * (cubeSize / 2) * (1 - cos theta)).
Proof. unfold rollPose; case_ifs; reflexivity. Qed.

Lemma rollPose_rotation r s :
  let theta := visualAngle (Rolling.angle r + rollSpeed) in
  let rot := rotation (cube s) in
  rotation (cube (rollPose r s)) =
    if Num.neb (Rolling.dx r) 0 then Vector3.with_z rot (- theta * Rolling.dx r)
    else if Num.neb (Rolling.dz r) 0 then Vector3.with_x rot (theta * Rolling.dz r)
    else rot.
Proof. unfold rollPose; case_ifs; reflexivity. Qed.

Lemma roll_keeps s :
  time (roll s) = time s /\ landed (roll s) = landed s /\
  camera (roll s) = camera s /\ renderer (roll s) = renderer s.
Proof.
  unfold roll. destruct (rolling s) as [r|]; [|auto].
  destruct (rollPose_keeps r s) as (Ht & Hl & _ & _ & Hc & Hr & _).
  case_ifs; simpl; auto.
Qed.

Lemma roll_idle s : rolling s = None -> roll s = s.
Proof. intros H; unfold roll; now rewrite H. Qed.

Lemma roll_continue s r :
  rolling s = Some r -> Rolling.angle r + rollSpeed < maxAngle ->
  roll s = rollPose r s.
Proof.
  intros Hr Hlt; unfold roll; rewrite Hr.
  apply geb_false in Hlt. now rewrite Hlt.
Qed.

Lemma roll_complete s r :
  rolling s = Some r -> Rolling.angle r + rollSpeed >= maxAngle ->
  roll s = snapToGrid (Rolling.dx r) (Rolling.dz r) (rollPose r s).
Proof.
  intros Hr Hge; unfold roll; rewrite Hr.
  apply geb_true in Hge. now rewrite Hge.
Qed.

Lemma handleResize_keeps m s :
  time (handleResize m s) = time s /\ landed (handleResize m s) = landed s /\
  rolling (handleResize m s) = rolling s /\
  cubeX (handleResize m s) = cubeX s /\ cubeZ (handleResize m s) = cubeZ s /\
  cube (handleResize m s) = cube s.
Proof. destruct m; simpl; auto 10. Qed.

(** ** Completion of a roll *)

Lemma animate_snap s r :
  rolling s = Some r ->
  Rolling.angle r + rollSpeed >= maxAngle ->
  rolling (animate s) = None /\
  cubeX (animate s) = cubeX s + Rolling.dx r * cubeSize /\
  cubeZ (animate s) = cubeZ s + Rolling.dz r * cubeSize /\
  position (cube (animate s)) =
    Vector3.set (cubeX (animate s)) targetY (cubeZ (animate s)) /\
  rotation (cube (animate s)) = Vector3.set 0 0 0.
Proof.
  intros Hr Hge.
  destruct (fall_keeps s) as (Hfr & Hfx & Hfz & _).
  assert (Hs' : animate s =
                snapToGrid (Rolling.dx r) (Rolling.dz r) (rollPose r (fall s))).
  { unfold animate. apply roll_complete; congruence. }
  destruct (rollPose_keeps r (fall s)) as (_ & _ & Hx & Hz & _).
  rewrite Hs'. simpl. repeat split; congruence.
Qed.

(** C2: on the frame in which the angle of the roll in progress reaches
    [maxAngle], the grid position moves by exactly [cubeSize] times the
    roll direction, the cube is placed exactly at [(cubeX, targetY, cubeZ)],
    its rotation is exactly zero and the rolling record is cleared, so the
    next request, in any direction, is decided by the landed flag and the
    bounds check alone. *)
Theorem animate_roll_completes (s : State) (r : Rolling.t) :
  rolling s = Some r ->
  Rolling.angle r + rollSpeed >= maxAngle ->
  let s' := animate s in
  cubeX s' = cubeX s + Rolling.dx r * cubeSize /\
  cubeZ s' = cubeZ s + Rolling.dz r * cubeSize /\
  position (cube s') = Vector3.set (cubeX s') targetY (cubeZ s') /\
  rotation (cube s') = Vector3.set 0 0 0 /\
  rolling s' = None /\
  (forall dx dz,
      rollCube dx dz s' <> s' <-> landed s' = true /\ in_bounds dx dz s').
Proof.
  intros Hr Hge s'.
  destruct (animate_snap s r Hr Hge) as (Hnone & Hx & Hz & Hp & Hrot).
  repeat (split; [assumption|]).
  intros dx dz.
  rewrite rollCube_changes_iff. unfold acceptable. tauto.
Qed.

(** ** The pose of the cube during a roll *)

(** C5: on a frame with a roll in progress the angle advances by
    [rollSpeed = PI / 20]; capped at [maxAngle = PI / 2] and eased by
    [1 - (1 - t)^2] it gives the visual angle [theta]; the cube is posed at
    [cubeX + dx * (cubeSize / 2) * (1 - cos theta)],
    [targetY + (cubeSize / 2) * sin theta],
    [cubeZ + dz * (cubeSize / 2) * (1 - cos theta)], with
    [rotation.z = - theta * dx] for an x-roll and [rotation.x = theta * dz]
    for a z-roll; this pose is what the frame leaves whenever the cap has
    not been reached. *)
Theorem animate_roll_pose (s : State) (r : Rolling.t) :
  rolling s = Some r ->
  let dx := Rolling.dx r in
  let dz := Rolling.dz r in
  let angle := Rolling.angle r + rollSpeed in
  let capped := Rmin angle maxAngle in
  let theta := capped * easeOutQuad (capped / maxAngle) in
  let p := rollPose r (fall s) in
  rollSpeed = PI / 20 /\ maxAngle = PI / 2 /\ capped <= maxAngle /\
  (forall t, easeOutQuad t = 1 - (1 - t) ^ 2) /\
  rolling p = Some (Rolling.mk dx dz angle) /\
  position (cube p) =
    Vector3.set (cubeX s + dx * (cubeSize / 2) * (1 - cos theta))
                (targetY + cubeSize / 2 * sin theta)
                (cubeZ s + dz * (cubeSize / 2) * (1 - cos theta)) /\
  (dx <> 0 -> Vector3.z (rotation (cube p)) = - theta * dx) /\
  (dx = 0 -> dz <> 0 -> Vector3.x (rotation (cube p)) = theta * dz) /\
  (angle < maxAngle -> animate s = p) /\
  (angle >= maxAngle -> animate s = snapToGrid dx dz p).
Proof.
  intros Hr dx dz angle capped theta p.
  destruct (fall_keeps s) as (Hfr & Hfx & Hfz & _).
  split; [reflexivity|]. split; [reflexivity|].
  split; [apply Rmin_r|].
  split; [intros t; unfold easeOutQuad; ring|].
  split; [apply rollPose_keeps|].
  split.
  { unfold p. rewrite rollPose_position, Hfx, Hfz. reflexivity. }
  split.
  { intros Hdx. unfold p. rewrite rollPose_rotation.
    apply neb_true in Hdx. fold dx. rewrite Hdx. reflexivity. }
  split.
  { intros Hdx Hdz. unfold p. rewrite rollPose_rotation.
    apply neb_false in Hdx. apply neb_true in Hdz. fold dx dz.
    rewrite Hdx, Hdz. reflexivity. }
  split.
  - intros Hlt. unfold animate, p. apply roll_continue; [congruence|exact Hlt].
  - intros Hge. unfold animate, p. apply roll_complete; [congruence|exact Hge].
Qed.

(** ** Induction over the reachable states *)

Lemma run_app evs1 evs2 s : run (evs1 ++ evs2) s = run evs2 (run evs1 s).
Proof. apply fold_left_app. Qed.

Lemma run_snoc evs e s : run (evs ++ [e]) s = step (run evs s) e.
Proof. now rewrite run_app. Qed.

Lemma run_snoc_frame evs s : run (evs ++ [Frame]) s = animate (run evs s).
Proof. apply run_snoc. Qed.

Lemma onKeyDown_preserves (P : State -> Prop) key s :
  (forall dx dz s, In (dx, dz) directions -> P s -> P (rollCube dx dz s)) ->
  P s -> P (onKeyDown key s).
Proof.
  intros Hroll Hs.
  assert (Hif : forall (b : bool) dx dz t,
             In (dx, dz) directions -> P t ->
             P (if b then rollCube dx dz t else t)).
  { intros [] dx dz t Hin Ht; auto. }
  unfold onKeyDown, directions in *.
  apply Hif; [simpl; auto 6|].
  apply Hif; [simpl; auto 6|].
  apply Hif; [simpl; auto 6|].
  apply Hif; [simpl; auto 6|].
  exact Hs.
Qed.

Lemma reachable_induction (P : State -> Prop) :
  (forall el, P (initial el)) ->
  (forall s, P s -> P (animate s)) ->
  (forall dx dz s, In (dx, dz) directions -> P s -> P (rollCube dx dz s)) ->
  (forall m s, P s -> P (handleResize m s)) ->
  forall s, reachable s -> P s.
Proof.
  intros Hinit Hframe Hroll Hresize s (el & evs & [Hs | Hs]); subst s; [|auto].
  induction evs as [|e evs IH] using rev_ind.
  - apply Hframe, Hinit.
  - rewrite run_snoc. destruct e as [|key|m]; simpl; auto.
    apply onKeyDown_preserves; auto.
Qed.

(** ** The fall clock *)

Lemma fall_falling s :
  landed s = false ->
  time (fall s) = time s + 1 / 60 /\
  landed (fall s) = negb (Num.ltb (time s + 1 / 60) fallDuration).
Proof.
  intros Hl. unfold fall. rewrite Hl. simpl.
  destruct (Num.ltb (time s + 1 / 60) fallDuration); simpl; auto.
Qed.

Lemma animate_falling s :
  landed s = false ->
  time (animate s) = time s + 1 / 60 /\
  landed (animate s) = negb (Num.ltb (time s + 1 / 60) fallDuration).
Proof.
  intros Hl. unfold animate.
  destruct (roll_keeps (fall s)) as (-> & -> & _).
  now apply fall_falling.
Qed.

Lemma animate_landed s :
  landed s = true -> time (animate s) = time s /\ landed (animate s) = true.
Proof.
  intros Hl. unfold animate.
  destruct (roll_keeps (fall s)) as (-> & -> & _).
  now rewrite (fall_landed s Hl).
Qed.

Lemma onKeyDown_clock key s :
  time (onKeyDown key s) = time s /\ landed (onKeyDown key s) = landed s.
Proof.
  apply (onKeyDown_preserves (fun t => time t = time s /\ landed t = landed s));
    [|auto].
  intros dx dz t _ (Ht & Hl).
  destruct (rollCube_keeps dx dz t) as (-> & -> & _). auto.
Qed.

Lemma INR_90 : INR 90 = 90.
Proof. rewrite INR_IZR_INZ. reflexivity. Qed.

Lemma clock_initial el : clock 0 (initial el).
Proof. unfold clock; simpl. split; [lra|reflexivity]. Qed.

Lemma clock_animate n s : clock n s -> clock (S n) (animate s).
Proof.
  intros (Ht & Hl). unfold clock.
  destruct (Nat.leb_spec 90 n) as [Hn | Hn].
  - destruct (animate_landed s Hl) as (-> & ->).
    rewrite Ht. replace (Nat.min (S n) 90) with (Nat.min n 90) by lia.
    split; [reflexivity|]. symmetry; apply Nat.leb_le; lia.
  - destruct (animate_falling s Hl) as (-> & ->).
    rewrite Ht. replace (Nat.min n 90) with n by lia.
    assert (Hn' : INR n + 1 <= 90).
    { rewrite <- S_INR, <- INR_90. apply le_INR. lia. }
    assert (Hsum : INR n / 60 + 1 / 60 = INR (S n) / 60) by (rewrite S_INR; lra).
    rewrite Hsum. unfold fallDuration.
    destruct (Nat.leb_spec 90 (S n)) as [Hs | Hs].
    + replace (Nat.min (S n) 90) with (S n) by lia.
      split; [reflexivity|].
      assert (H90 : S n = 90%nat) by lia.
      replace (Num.ltb (INR (S n) / 60) 1.5) with false; [reflexivity|].
      symmetry; apply ltb_false. rewrite H90, INR_90. lra.
    + replace (Nat.min (S n) 90) with (S n) by lia.
      split; [reflexivity|].
      replace (Num.ltb (INR (S n) / 60) 1.5) with true; [reflexivity|].
      symmetry; apply ltb_true.
      assert (INR (S n) < 90) by (rewrite <- INR_90; apply lt_INR; lia).
      lra.
Qed.

Lemma clock_step n s e :
  clock n s -> clock (match e with Frame => S n | _ => n end) (step s e).
Proof.
  intros Hc. destruct e as [|key|m]; simpl.
  - now apply clock_animate.
  - unfold clock. destruct (onKeyDown_clock key s) as (-> & ->). exact Hc.
  - unfold clock. destruct (handleResize_keeps m s) as (-> & -> & _). exact Hc.
Qed.

Lemma clock_run evs : forall n s, clock n s -> clock (n + frames evs) (run evs s).
Proof.
  induction evs as [|e evs IH]; intros n s Hc; simpl.
  - now rewrite Nat.add_0_r.
  - apply (clock_step _ _ e) in Hc.
    destruct e; simpl in *; apply IH in Hc;
      [now rewrite Nat.add_succ_r|assumption|assumption].
Qed.

Lemma clock_landed_iff n s :
  clock n s -> (landed s = true <-> time s >= fallDuration).
Proof.
  intros (Ht & Hl). rewrite Ht, Hl. unfold fallDuration.
  destruct (Nat.leb_spec 90 n) as [Hn | Hn].
  - replace (Nat.min n 90) with 90%nat by lia. rewrite INR_90.
    split; [intros _; lra|reflexivity].
  - replace (Nat.min n 90) with n by lia.
    assert (INR n < 90) by (rewrite <- INR_90; apply lt_INR; lia).
    split; [discriminate|intros; lra].
Qed.



(** ** The cube at rest *)

Lemma animate_rolling s :
  match rolling s with
  | None =>
      rolling (animate s) = None /\
      cubeX (animate s) = cubeX s /\ cubeZ (animate s) = cubeZ s
  | Some r =>
      if Num.geb (Rolling.angle r + rollSpeed) maxAngle then
        rolling (animate s) = None /\
        cubeX (animate s) = cubeX s + Rolling.dx r * cubeSize /\
        cubeZ (animate s) = cubeZ s + Rolling.dz r * cubeSize /\
        position (cube (animate s)) =
          Vector3.set (cubeX (animate s)) targetY (cubeZ (animate s)) /\
        rotation (cube (animate s)) = Vector3.set 0 0 0
      else
        rolling (animate s) =
          Some (Rolling.mk (Rolling.dx r) (Rolling.dz r)
                  (Rolling.angle r + rollSpeed)) /\
        cubeX (animate s) = cubeX s /\ cubeZ (animate s) = cubeZ s
  end.
Proof.
  destruct (fall_keeps s) as (Hfr & Hfx & Hfz & _).
  destruct (rolling s) as [r|] eqn:Hr.
  - destruct (Num.geb (Rolling.angle r + rollSpeed) maxAngle) eqn:Hge.
    + apply geb_true in Hge.
      destruct (animate_snap s r Hr Hge) as (? & ? & ? & ? & ?). auto.
    + apply geb_false in Hge. unfold animate.
      rewrite (roll_continue _ r) by congruence.
      destruct (rollPose_keeps r (fall s)) as (_ & _ & -> & -> & _ & _ & ->).
      auto.
  - unfold animate. rewrite roll_idle by congruence. auto.
Qed.

Lemma fall_lands s :
  landed s = false -> landed (fall s) = true -> at_rest (fall s).
Proof.
  intros Hl. unfold fall. rewrite Hl. simpl.
  destruct (Num.ltb (time s + 1 / 60) fallDuration); simpl;
    [congruence|intros _; split; reflexivity].
Qed.

Lemma rests_when_idle_initial el : rests_when_idle (initial el).
Proof. split; [reflexivity|discriminate]. Qed.

Lemma rests_when_idle_animate s :
  rests_when_idle s -> rests_when_idle (animate s).
Proof.
  intros (Hidle & Hrest).
  pose proof (animate_rolling s) as Hroll.
  destruct (landed s) eqn:Hl.
  - destruct (animate_landed s Hl) as (_ & Hl').
    split; [congruence|]. intros _ Hnone.
    destruct (rolling s) as [r|] eqn:Hr.
    + destruct (Num.geb (Rolling.angle r + rollSpeed) maxAngle).
      * destruct Hroll as (_ & _ & _ & Hp & Hrot).
        split; [now rewrite Hp|exact Hrot].
      * destruct Hroll as (Hsome & _). congruence.
    + unfold animate. rewrite (fall_landed s Hl), roll_idle by exact Hr. auto.
  - rewrite (Hidle eq_refl) in Hroll. destruct Hroll as (Hnone & _).
    split; [auto|]. intros Hl' _.
    destruct (fall_keeps s) as (Hfr & _).
    unfold animate in *. rewrite roll_idle in * by (rewrite Hfr; auto).
    now apply fall_lands.
Qed.

Lemma rests_when_idle_rollCube dx dz s :
  rests_when_idle s -> rests_when_idle (rollCube dx dz s).
Proof.
  intros (Hidle & Hrest).
  destruct (acceptable_dec dx dz s) as [Ha | Hn].
  - rewrite (rollCube_accept _ _ _ Ha). destruct Ha as (Hl & _).
    split; simpl; [congruence|discriminate].
  - rewrite (rollCube_reject _ _ _ Hn). now split.
Qed.

Lemma rests_when_idle_handleResize m s :
  rests_when_idle s -> rests_when_idle (handleResize m s).
Proof.
  unfold rests_when_idle, at_rest.
  destruct (handleResize_keeps m s) as (_ & -> & -> & _ & _ & ->). auto.
Qed.

Lemma reachable_rests_when_idle s : reachable s -> rests_when_idle s.
Proof.
  apply reachable_induction.
  - apply rests_when_idle_initial.
  - apply rests_when_idle_animate.
  - intros dx dz t _. apply rests_when_idle_rollCube.
  - apply rests_when_idle_handleResize.
Qed.

Lemma reachable_landed_iff s :
  reachable s -> (landed s = true <-> time s >= fallDuration).
Proof.
  intros (el & evs & [Hs | Hs]); subst s.
  - apply (clock_landed_iff (1 + frames evs)).
    apply clock_run, clock_animate, clock_initial.
  - apply (clock_landed_iff 0), clock_initial.
Qed.

(** C4, as the program has it: in every reachable state the elapsed time
    has reached [fallDuration] exactly when the cube has landed, and in
    every such state in which no roll is in progress [position.y] is
    exactly [targetY = cubeSize / 2] and the three rotation components are
    exactly zero. *)
Theorem landed_idle_at_rest (s : State) :
  reachable s ->
  (time s >= fallDuration <-> landed s = true) /\
  (time s >= fallDuration -> rolling s = None ->
     Vector3.y (position (cube s)) = cubeSize / 2 /\
     Vector3.x (rotation (cube s)) = 0 /\
     Vector3.y (rotation (cube s)) = 0 /\
     Vector3.z (rotation (cube s)) = 0).
Proof.
  intros Hreach.
  pose proof (reachable_landed_iff s Hreach) as Hiff.
  split; [tauto|].
  intros Ht Hnone. apply Hiff in Ht.
  destruct (reachable_rests_when_idle s Hreach) as (_ & Hrest).
  destruct (Hrest Ht Hnone) as (Hy & Hrot).
  rewrite Hrot. auto.
Qed.

(** ** The grid position stays on the platform *)

Lemma Zabs_le_of_Rabs (i : Z) : Rabs (IZR i) <= 1 -> (Z.abs i <= 1)%Z.
Proof. rewrite <- abs_IZR. apply le_IZR. Qed.

Lemma Rabs_le_of_Zabs (i : Z) : (Z.abs i <= 1)%Z -> Rabs (IZR i) <= 1.
Proof. rewrite <- abs_IZR. apply IZR_le. Qed.

Lemma directions_integral dx dz :
  In (dx, dz) directions -> exists a b : Z, dx = IZR a /\ dz = IZR b.
Proof.
  unfold directions; simpl.
  intros [H | [H | [H | [H | []]]]]; injection H as <- <-.
  - exists 0%Z, (-1)%Z; auto.
  - exists 0%Z, 1%Z; auto.
  - exists (-1)%Z, 0%Z; auto.
  - exists 1%Z, 0%Z; auto.
Qed.

Lemma on_platform_initial el : on_platform (initial el).
Proof.
  exists 0%Z, (-1)%Z. simpl. unfold largeCubeSize.
  repeat split; try lra; try lia. discriminate.
Qed.

Lemma on_platform_animate s : on_platform s -> on_platform (animate s).
Proof.
  intros (i & j & Hx & Hz & Hi & Hj & Hroll).
  pose proof (animate_rolling s) as Ha.
  destruct (rolling s) as [r|] eqn:Hr.
  - destruct (Hroll r eq_refl) as (a & b & Hdx & Hdz & Hia & Hjb).
    destruct (Num.geb (Rolling.angle r + rollSpeed) maxAngle).
    + destruct Ha as (Hnone & Hx' & Hz' & _).
      exists (i + a)%Z, (j + b)%Z.
      rewrite Hx', Hz', Hx, Hz, Hdx, Hdz, !plus_IZR. unfold cubeSize.
      repeat split; try lra; try assumption.
      intros r'; rewrite Hnone; discriminate.
    + destruct Ha as (Hsome & Hx' & Hz').
      exists i, j. rewrite Hx', Hz'. repeat split; try assumption.
      intros r'; rewrite Hsome. intros [= <-]. simpl. eauto.
  - destruct Ha as (Hnone & Hx' & Hz').
    exists i, j. rewrite Hx', Hz'. repeat split; try assumption.
    intros r'; rewrite Hnone; discriminate.
Qed.

Lemma on_platform_rollCube dx dz s :
  In (dx, dz) directions -> on_platform s -> on_platform (rollCube dx dz s).
Proof.
  intros Hin (i & j & Hx & Hz & Hi & Hj & Hroll).
  destruct (acceptable_dec dx dz s) as [Ha | Hn].
  - rewrite (rollCube_accept _ _ _ Ha).
    destruct Ha as (_ & _ & Hbx & Hbz).
    destruct (directions_integral dx dz Hin) as (a & b & -> & ->).
    exists i, j. simpl. repeat split; try assumption.
    intros r [= <-]. simpl. exists a, b.
    rewrite bound_eq, Hx, Hz in *. unfold cubeSize in *.
    rewrite !Rmult_1_r, <- !plus_IZR in *.
    repeat split; auto using Zabs_le_of_Rabs.
  - rewrite (rollCube_reject _ _ _ Hn). exists i, j. auto 10.
Qed.

Lemma on_platform_handleResize m s :
  on_platform s -> on_platform (handleResize m s).
Proof.
  unfold on_platform.
  destruct (handleResize_keeps m s) as (_ & _ & -> & -> & -> & _). auto.
Qed.

Lemma reachable_on_platform s : reachable s -> on_platform s.
Proof.
  apply reachable_induction.
  - apply on_platform_initial.
  - apply on_platform_animate.
  - apply on_platform_rollCube.
  - apply on_platform_handleResize.
Qed.

(** C9: in every reachable state the grid coordinates [cubeX] and [cubeZ]
    are integers (multiples of [cubeSize = 1]; they start at [(0, -1)]) and
    satisfy [|cubeX| <= largeCubeSize / 2 - cubeSize / 2 = 1] and
    [|cubeZ| <= 1]: no sequence of key presses, resizes and frame updates
    takes the grid position off the 3 x 3 platform. *)
Theorem grid_position_on_platform (s : State) :
  reachable s ->
  (exists i j : Z, cubeX s = IZR i * cubeSize /\ cubeZ s = IZR j * cubeSize) /\
  Rabs (cubeX s) <= largeCubeSize / 2 - cubeSize / 2 /\
  Rabs (cubeZ s) <= largeCubeSize / 2 - cubeSize / 2 /\
  largeCubeSize / 2 - cubeSize / 2 = 1 /\
  (forall el, cubeX (initial el) = 0 /\ cubeZ (initial el) = -1).
Proof.
  intros Hreach.
  destruct (reachable_on_platform s Hreach) as (i & j & Hx & Hz & Hi & Hj & _).
  fold bound. rewrite bound_eq.
  split; [exists i, j; unfold cubeSize; rewrite Hx, Hz; split; ring|].
  split; [rewrite Hx; now apply Rabs_le_of_Zabs|].
  split; [rewrite Hz; now apply Rabs_le_of_Zabs|].
  split; [reflexivity|].
  intros el; simpl; unfold largeCubeSize; split; lra.
Qed.

(** ** A roll takes ten frames *)

Lemma frames_app evs1 evs2 : frames (evs1 ++ evs2) = (frames evs1 + frames evs2)%nat.
Proof.
  induction evs1 as [|[] evs1 IH]; simpl; auto.
Qed.

Lemma frames_repeat n : frames (repeat Frame n) = n.
Proof. induction n; simpl; auto. Qed.

Lemma onKeyDown_rolling key s r : rolling s = Some r -> onKeyDown key s = s.
Proof.
  intros Hr.
  apply (onKeyDown_preserves (fun t => t = s)); [|reflexivity].
  intros dx dz t _ ->. apply rollCube_reject.
  intros (_ & Hnone & _). congruence.
Qed.

Lemma rollSpeed_steps (k : nat) :
  (k < 10)%nat -> INR k * rollSpeed < maxAngle.
Proof.
  intros Hk. unfold rollSpeed, maxAngle.
  assert (INR k <= 9).
  { replace 9 with (INR 9) by (rewrite INR_IZR_INZ; reflexivity).
    apply le_INR. lia. }
  pose proof PI_RGT_0. nra.
Qed.

Lemma rollSpeed_ten : INR 10 * rollSpeed = maxAngle.
Proof.
  unfold rollSpeed, maxAngle. rewrite INR_IZR_INZ. simpl. lra.
Qed.

Lemma roll_progress dx dz s evs :
  rolling s = Some (Rolling.mk dx dz 0) ->
  landed s = true ->
  (frames evs < 10)%nat ->
  rolling (run evs s) = Some (Rolling.mk dx dz (INR (frames evs) * rollSpeed)) /\
  cubeX (run evs s) = cubeX s /\ cubeZ (run evs s) = cubeZ s /\
  landed (run evs s) = true.
Proof.
  intros Hr Hlanded. induction evs as [|e evs IH] using rev_ind; intros Hk.
  - simpl. rewrite Hr, Rmult_0_l. auto.
  - rewrite frames_app in *. rewrite run_snoc.
    destruct IH as (Hroll & Hx & Hz & Hl); [lia|].
    destruct e as [|key|m]; simpl in *.
    + pose proof (animate_rolling (run evs s)) as Ha.
      rewrite Hroll in Ha. simpl in Ha.
      assert (Hlt : INR (frames evs) * rollSpeed + rollSpeed < maxAngle).
      { replace (INR (frames evs) * rollSpeed + rollSpeed)
          with (INR (frames evs + 1) * rollSpeed)
          by (rewrite plus_INR; simpl; ring).
        apply rollSpeed_steps. lia. }
      apply geb_false in Hlt. rewrite Hlt in Ha.
      destruct Ha as (-> & -> & ->).
      split; [do 2 f_equal; rewrite plus_INR; simpl; ring|].
      split; [assumption|]. split; [assumption|].
      now apply animate_landed.
    + rewrite (onKeyDown_rolling key _ _ Hroll), Nat.add_0_r. auto.
    + destruct (handleResize_keeps m (run evs s)) as (_ & -> & -> & -> & -> & _).
      rewrite Nat.add_0_r. auto.
Qed.

Lemma roll_tenth_frame dx dz s evs :
  rolling s = Some (Rolling.mk dx dz 0) ->
  landed s = true ->
  frames evs = 9%nat ->
  let s' := animate (run evs s) in
  rolling s' = None /\
  cubeX s' = cubeX s + dx * cubeSize /\ cubeZ s' = cubeZ s + dz * cubeSize /\
  position (cube s') = Vector3.set (cubeX s') targetY (cubeZ s') /\
  rotation (cube s') = Vector3.set 0 0 0 /\
  landed s' = true.
Proof.
  intros Hr Hl H9 s'.
  destruct (roll_progress dx dz s evs Hr Hl) as (Hroll & Hx & Hz & Hl'); [lia|].
  assert (Hge : INR (frames evs) * rollSpeed + rollSpeed >= maxAngle).
  { rewrite H9, <- rollSpeed_ten.
    replace (INR 10) with (INR 9 + 1) by (rewrite <- S_INR; reflexivity).
    lra. }
  destruct (animate_snap (run evs s) _ Hroll Hge) as (Hn & Hx' & Hz' & Hp & Hrot).
  simpl in Hx', Hz'. rewrite Hx in Hx'. rewrite Hz in Hz'.
  unfold s'. repeat (split; [assumption|]).
  now apply animate_landed.
Qed.

(** C10: every accepted roll ends: while fewer than ten frame updates have
    run since the request (whatever other events come in between) the roll
    is in progress with angle [k * PI / 20 < PI / 2]; ten increments make
    exactly [maxAngle], so the tenth frame update takes the completion
    branch, moves the grid position and clears the rolling record. *)
Theorem roll_terminates (dx dz : R) (s : State) :
  acceptable dx dz s ->
  let s0 := rollCube dx dz s in
  rolling s0 = Some (Rolling.mk dx dz 0) /\
  (forall evs, (frames evs < 10)%nat ->
     rolling (run evs s0) =
       Some (Rolling.mk dx dz (INR (frames evs) * rollSpeed)) /\
     INR (frames evs) * rollSpeed < maxAngle) /\
  INR 10 * rollSpeed = maxAngle /\
  (forall evs, frames evs = 9%nat ->
     rolling (animate (run evs s0)) = None /\
     cubeX (animate (run evs s0)) = cubeX s + dx * cubeSize /\
     cubeZ (animate (run evs s0)) = cubeZ s + dz * cubeSize) /\
  rolling (run (repeat Frame 10) s0) = None.
Proof.
  intros Ha s0.
  assert (Hs0 : s0 = set_rolling (Some (Rolling.mk dx dz 0)) s)
    by now apply rollCube_accept.
  assert (Hr : rolling s0 = Some (Rolling.mk dx dz 0)) by now rewrite Hs0.
  assert (Hl : landed s0 = true) by (rewrite Hs0; apply Ha).
  split; [exact Hr|].
  split.
  { intros evs Hk. split; [apply (roll_progress dx dz s0 evs Hr Hl Hk)|].
    now apply rollSpeed_steps. }
  split; [apply rollSpeed_ten|].
  split.
  { intros evs H9.
    destruct (roll_tenth_frame dx dz s0 evs Hr Hl H9) as (Hn & Hx & Hz & _).
    replace (cubeX s0) with (cubeX s) in Hx by now rewrite Hs0.
    replace (cubeZ s0) with (cubeZ s) in Hz by now rewrite Hs0.
    auto. }
  change (repeat Frame 10) with (repeat Frame 9 ++ [Frame]).
  rewrite run_snoc_frame.
  destruct (roll_tenth_frame dx dz s0 (repeat Frame 9) Hr Hl (frames_repeat 9))
    as (Hn & _).
  exact Hn.
Qed.

(** ** The scenario of the left edge *)

Lemma run_frames_idle n s :
  rolling s = None ->
  rolling (run (repeat Frame n) s) = None /\
  cubeX (run (repeat Frame n) s) = cubeX s /\
  cubeZ (run (repeat Frame n) s) = cubeZ s.
Proof.
  revert s. induction n as [|n IH]; intros s Hr; [simpl; auto|].
  simpl repeat. unfold run in *. simpl fold_left.
  pose proof (animate_rolling s) as Ha. rewrite Hr in Ha.
  destruct Ha as (Hn & Hx & Hz).
  destruct (IH (animate s) Hn) as (-> & -> & ->). auto.
Qed.

Lemma onKeyDown_a s : onKeyDown "a" s = rollCube (-1) 0 s.
Proof. reflexivity. Qed.

(** The cube has landed on its initial cell once the set-up call of
    [animate] and 90 frame callbacks have run. *)
Lemma just_landed el :
  let s := run (repeat Frame 90) (mount el) in
  landed s = true /\ rolling s = None /\ cubeX s = 0 /\ cubeZ s = -1 /\
  time s >= fallDuration.
Proof.
  intros s.
  assert (Hc : clock 91 s).
  { unfold s, mount.
    replace 91%nat with (1 + frames (repeat Frame 90))%nat
      by now rewrite frames_repeat.
    apply clock_run, clock_animate, clock_initial. }
  destruct Hc as (Ht & Hl).
  pose proof (animate_rolling (initial el)) as Hm. simpl in Hm.
  destruct Hm as (Hn & Hx & Hz).
  destruct (run_frames_idle 90 (mount el) Hn) as (Hn' & Hx' & Hz').
  fold s in Hn', Hx', Hz'.
  split; [exact Hl|]. split; [exact Hn'|].
  split; [unfold mount in *; congruence|].
  split; [unfold mount in *; rewrite Hz', Hz; unfold largeCubeSize; lra|].
  rewrite Ht. unfold fallDuration.
  replace (Nat.min 91 90) with 90%nat by reflexivity.
  rewrite INR_90. lra.
Qed.

(** C6: on the size-3 platform the bound is [1] and the grid position
    starts at [(0, -1)]; from a landed, idle cube on that cell a request
    with [dx = -1] (the key [a]) is accepted, the roll it starts ends ten
    frames later on the cell [(-1, -1)], and a further request with
    [dx = -1] is rejected, because [|cubeX + dx * cubeSize| = 2] exceeds the
    bound: it leaves the state, and so the grid position [(-1, -1)], as it
    is. *)
Theorem roll_left_then_blocked (s : State) :
  landed s = true -> rolling s = None -> cubeX s = 0 -> cubeZ s = -1 ->
  let s1 := onKeyDown "a" s in
  let s2 := run (repeat Frame 10) s1 in
  let s3 := onKeyDown "a" s2 in
  largeCubeSize / 2 - cubeSize / 2 = 1 /\
  (forall el, cubeX (initial el) = 0 /\
              cubeZ (initial el) = - largeCubeSize / 3 /\
              cubeZ (initial el) = -1) /\
  s1 = rollCube (-1) 0 s /\
  rolling s1 = Some (Rolling.mk (-1) 0 0) /\
  rolling s2 = None /\ cubeX s2 = -1 /\ cubeZ s2 = -1 /\
  Rabs (cubeX s2 + -1 * cubeSize) = 2 /\
  s3 = s2 /\ cubeX s3 = -1 /\ cubeZ s3 = -1.
Proof.
  intros Hl Hr Hx Hz s1 s2 s3.
  assert (Hacc : acceptable (-1) 0 s).
  { unfold acceptable, in_bounds. rewrite bound_eq, Hx, Hz. unfold cubeSize.
    repeat split; auto; apply Rabs_le; lra. }
  assert (Hs1 : s1 = set_rolling (Some (Rolling.mk (-1) 0 0)) s).
  { unfold s1. rewrite onKeyDown_a. now apply rollCube_accept. }
  assert (Hr1 : rolling s1 = Some (Rolling.mk (-1) 0 0)) by now rewrite Hs1.
  assert (Hl1 : landed s1 = true) by now rewrite Hs1.
  assert (H2 : rolling s2 = None /\ cubeX s2 = -1 /\ cubeZ s2 = -1).
  { unfold s2. change (repeat Frame 10) with (repeat Frame 9 ++ [Frame]).
    rewrite run_snoc_frame.
    destruct (roll_tenth_frame (-1) 0 s1 (repeat Frame 9) Hr1 Hl1
                (frames_repeat 9)) as (Hn & Hx2 & Hz2 & _).
    replace (cubeX s1) with (cubeX s) in Hx2 by now rewrite Hs1.
    replace (cubeZ s1) with (cubeZ s) in Hz2 by now rewrite Hs1.
    rewrite Hx2, Hz2, Hx, Hz. unfold cubeSize. repeat split; auto; lra. }
  destruct H2 as (Hn2 & Hx2 & Hz2).
  assert (Habs : Rabs (cubeX s2 + -1 * cubeSize) = 2).
  { rewrite Hx2. unfold cubeSize.
    replace (-1 + -1 * 1) with (- (2)) by lra.
    rewrite Rabs_Ropp. apply Rabs_right. lra. }
  assert (Hs3 : s3 = s2).
  { unfold s3. rewrite onKeyDown_a. apply rollCube_reject.
    intros (_ & _ & Hbx & _). rewrite bound_eq, Habs in Hbx. lra. }
  split; [unfold largeCubeSize, cubeSize; lra|].
  split; [intros el; simpl; unfold largeCubeSize; repeat split; lra|].
  split; [apply onKeyDown_a|].
  repeat (split; [assumption|]).
  rewrite Hs3. auto.
Qed.

(** ** The bounce curve *)

Section Bounce.

(** The four branches of [easeOutBounce]. *)
Lemma easeOutBounce_1 t : t < 1 / 2.75 -> easeOutBounce t = 7.5625 * t * t.
Proof.
  intros H. unfold easeOutBounce. apply ltb_true in H. now rewrite H.
Qed.

Lemma easeOutBounce_2 t :
  1 / 2.75 <= t < 2 / 2.75 ->
  easeOutBounce t = 7.5625 * (t - 1.5 / 2.75) * (t - 1.5 / 2.75) + 0.75.
Proof.
  intros (H1 & H2). unfold easeOutBounce.
  apply ltb_false in H1. apply ltb_true in H2. now rewrite H1, H2.
Qed.

Lemma easeOutBounce_3 t :
  2 / 2.75 <= t < 2.5 / 2.75 ->
  easeOutBounce t = 7.5625 * (t - 2.25 / 2.75) * (t - 2.25 / 2.75) + 0.9375.
Proof.
  intros (H1 & H2). unfold easeOutBounce.
  assert (H0 : 1 / 2.75 <= t) by lra.
  apply ltb_false in H0, H1. apply ltb_true in H2. now rewrite H0, H1, H2.
Qed.

Lemma easeOutBounce_4 t :
  2.5 / 2.75 <= t ->
  easeOutBounce t = 7.5625 * (t - 2.625 / 2.75) * (t - 2.625 / 2.75) + 0.984375.
Proof.
  intros H2. unfold easeOutBounce.
  assert (H0 : 1 / 2.75 <= t) by lra.
  assert (H1 : 2 / 2.75 <= t) by lra.
  apply ltb_false in H0, H1, H2. now rewrite H0, H1, H2.
Qed.

Lemma easeOutBounce_at_1 : easeOutBounce 1 = 1.
Proof. rewrite easeOutBounce_4; lra. Qed.

End Bounce.

Section BounceContinuity.

(** A function that agrees with [p] just below [b] and with [q] from [b]
    on is continuous at [b] when [p] and [q] are and they meet there. *)
Lemma continuity_pt_glue (f p q : R -> R) (b d : R) :
  0 < d ->
  (forall t, b - d < t < b -> f t = p t) ->
  (forall t, b <= t < b + d -> f t = q t) ->
  p b = q b ->
  continuity_pt p b -> continuity_pt q b ->
  continuity_pt f b.
Proof.
  intros Hd Hp Hq Hpq Cp Cq eps Heps.
  destruct (Cp eps Heps) as (dp & Hdp & Hclose_p).
  destruct (Cq eps Heps) as (dq & Hdq & Hclose_q).
  exists (Rmin d (Rmin dp dq)). split.
  { repeat apply Rmin_glb_lt; assumption. }
  intros t ((_ & Hne) & Hdist).
  simpl in *. unfold R_dist in *.
  assert (Hfb : f b = q b) by (apply Hq; lra).
  assert (Htd : Rabs (t - b) < d)
    by (eapply Rlt_le_trans; [exact Hdist|apply Rmin_l]).
  assert (Htp : Rabs (t - b) < dp).
  { eapply Rlt_le_trans; [exact Hdist|].
    eapply Rle_trans; [apply Rmin_r|apply Rmin_l]. }
  assert (Htq : Rabs (t - b) < dq).
  { eapply Rlt_le_trans; [exact Hdist|].
    eapply Rle_trans; [apply Rmin_r|apply Rmin_r]. }
  apply Rabs_def2 in Htd.
  destruct (Rlt_le_dec t b) as [Hlt | Hle].
  - rewrite Hfb, <- Hpq, (Hp t) by lra.
    apply Hclose_p. repeat split; auto.
  - rewrite Hfb, (Hq t) by lra.
    apply Hclose_q. repeat split; auto.
Qed.

Lemma continuity_pt_parabola (n c k b : R) :
  continuity_pt (fun t => n * (t - c) * (t - c) + k) b.
Proof. reg. Qed.

End BounceContinuity.

Lemma easeOutBounce_continuous_1 : continuity_pt easeOutBounce (1 / 2.75).
Proof.
  apply (continuity_pt_glue _
           (fun t => 7.5625 * t * t)
           (fun t => 7.5625 * (t - 1.5 / 2.75) * (t - 1.5 / 2.75) + 0.75)
           _ (1 / 2.75)).
  - lra.
  - intros t Ht. apply easeOutBounce_1; lra.
  - intros t Ht. apply easeOutBounce_2; lra.
  - lra.
  - reg.
  - reg.
Qed.

Lemma easeOutBounce_continuous_2 : continuity_pt easeOutBounce (2 / 2.75).
Proof.
  apply (continuity_pt_glue _
           (fun t => 7.5625 * (t - 1.5 / 2.75) * (t - 1.5 / 2.75) + 0.75)
           (fun t => 7.5625 * (t - 2.25 / 2.75) * (t - 2.25 / 2.75) + 0.9375)
           _ (0.5 / 2.75)).
  - lra.
  - intros t Ht. apply easeOutBounce_2; lra.
  - intros t Ht. apply easeOutBounce_3; lra.
  - lra.
  - reg.
  - reg.
Qed.

Lemma easeOutBounce_continuous_3 : continuity_pt easeOutBounce (2.5 / 2.75).
Proof.
  apply (continuity_pt_glue _
           (fun t => 7.5625 * (t - 2.25 / 2.75) * (t - 2.25 / 2.75) + 0.9375)
           (fun t => 7.5625 * (t - 2.625 / 2.75) * (t - 2.625 / 2.75) + 0.984375)
           _ (0.25 / 2.75)).
  - lra.
  - intros t Ht. apply easeOutBounce_3; lra.
  - intros t Ht. apply easeOutBounce_4; lra.
  - lra.
  - reg.
  - reg.
Qed.

(** The value at a breakpoint or at [1] is [1]; inside a segment the curve
    is the segment's parabola. *)
Lemma easeOutBounce_rising_1 : nondecreasing_on easeOutBounce 0 (1 / 2.75).
Proof.
  intros a b Ha Hab Hb.
  destruct (Rlt_le_dec b (1 / 2.75)) as [Hlt | Hge].
  - rewrite !easeOutBounce_1 by lra. nra.
  - assert (b = 1 / 2.75) by lra. subst b.
    rewrite (easeOutBounce_2 (1 / 2.75)) by lra.
    destruct (Rlt_le_dec a (1 / 2.75)) as [Hlt | Hge'].
    + rewrite easeOutBounce_1 by lra. nra.
    + assert (a = 1 / 2.75) by lra. subst a.
      rewrite easeOutBounce_2 by lra. lra.
Qed.

Lemma easeOutBounce_falling_2 :
  nonincreasing_on easeOutBounce (1 / 2.75) (1.5 / 2.75).
Proof.
  intros a b Ha Hab Hb. rewrite !easeOutBounce_2 by lra. nra.
Qed.

Lemma easeOutBounce_rising_2 :
  nondecreasing_on easeOutBounce (1.5 / 2.75) (2 / 2.75).
Proof.
  intros a b Ha Hab Hb.
  destruct (Rlt_le_dec b (2 / 2.75)) as [Hlt | Hge].
  - rewrite !easeOutBounce_2 by lra. nra.
  - assert (b = 2 / 2.75) by lra. subst b.
    rewrite (easeOutBounce_3 (2 / 2.75)) by lra.
    destruct (Rlt_le_dec a (2 / 2.75)) as [Hlt | Hge'].
    + rewrite easeOutBounce_2 by lra. nra.
    + assert (a = 2 / 2.75) by lra. subst a.
      rewrite easeOutBounce_3 by lra. lra.
Qed.

Lemma easeOutBounce_falling_3 :
  nonincreasing_on easeOutBounce (2 / 2.75) (2.25 / 2.75).
Proof.
  intros a b Ha Hab Hb. rewrite !easeOutBounce_3 by lra. nra.
Qed.

Lemma easeOutBounce_rising_3 :
  nondecreasing_on easeOutBounce (2.25 / 2.75) (2.5 / 2.75).
Proof.
  intros a b Ha Hab Hb.
  destruct (Rlt_le_dec b (2.5 / 2.75)) as [Hlt | Hge].
  - rewrite !easeOutBounce_3 by lra. nra.
  - assert (b = 2.5 / 2.75) by lra. subst b.
    rewrite (easeOutBounce_4 (2.5 / 2.75)) by lra.
    destruct (Rlt_le_dec a (2.5 / 2.75)) as [Hlt | Hge'].
    + rewrite easeOutBounce_3 by lra. nra.
    + assert (a = 2.5 / 2.75) by lra. subst a.
      rewrite easeOutBounce_4 by lra. lra.
Qed.

Lemma easeOutBounce_falling_4 :
  nonincreasing_on easeOutBounce (2.5 / 2.75) (2.625 / 2.75).
Proof.
  intros a b Ha Hab Hb. rewrite !easeOutBounce_4 by lra. nra.
Qed.

Lemma easeOutBounce_rising_4 :
  nondecreasing_on easeOutBounce (2.625 / 2.75) 1.
Proof.
  intros a b Ha Hab Hb. rewrite !easeOutBounce_4 by lra. nra.
Qed.

(** C3, as stated, fails: inside the second segment the curve comes down
    from [1] at [t = 1 / 2.75] to [0.75] at [t = 1.5 / 2.75]. *)
Lemma easeOutBounce_dips_in_segment_2 :
  1 / 2.75 <= 1 / 2.75 /\ 1 / 2.75 <= 1.5 / 2.75 /\ 1.5 / 2.75 < 2 / 2.75 /\
  easeOutBounce (1 / 2.75) = 1 /\ easeOutBounce (1.5 / 2.75) = 0.75 /\
  ~ easeOutBounce (1 / 2.75) <= easeOutBounce (1.5 / 2.75) /\
  ~ (forall a b, 1 / 2.75 <= a -> a <= b -> b < 2 / 2.75 ->
       easeOutBounce a <= easeOutBounce b).
Proof.
  assert (H1 : easeOutBounce (1 / 2.75) = 1)
    by (rewrite easeOutBounce_2; lra).
  assert (H2 : easeOutBounce (1.5 / 2.75) = 0.75)
    by (rewrite easeOutBounce_2; lra).
  repeat (split; [lra|]).
  intros Hmono.
  specialize (Hmono (1 / 2.75) (1.5 / 2.75)). lra.
Qed.

(** C3, as the program has it: [easeOutBounce] is continuous at its three
    breakpoints [1 / 2.75], [2 / 2.75] and [2.5 / 2.75] and returns exactly
    [1] at [t = 1]; it is non-decreasing on the first segment
    [[0, 1 / 2.75]] and on the rising part of each later segment, from the
    vertex of its parabola to its end ([[1.5 / 2.75, 2 / 2.75]],
    [[2.25 / 2.75, 2.5 / 2.75]], [[2.625 / 2.75, 1]]), and non-increasing
    on the part of each later segment before the vertex. *)
Theorem easeOutBounce_shape :
  continuity_pt easeOutBounce (1 / 2.75) /\
  continuity_pt easeOutBounce (2 / 2.75) /\
  continuity_pt easeOutBounce (2.5 / 2.75) /\
  easeOutBounce 1 = 1 /\
  nondecreasing_on easeOutBounce 0 (1 / 2.75) /\
  nonincreasing_on easeOutBounce (1 / 2.75) (1.5 / 2.75) /\
  nondecreasing_on easeOutBounce (1.5 / 2.75) (2 / 2.75) /\
  nonincreasing_on easeOutBounce (2 / 2.75) (2.25 / 2.75) /\
  nondecreasing_on easeOutBounce (2.25 / 2.75) (2.5 / 2.75) /\
  nonincreasing_on easeOutBounce (2.5 / 2.75) (2.625 / 2.75) /\
  nondecreasing_on easeOutBounce (2.625 / 2.75) 1.
Proof.
  split; [exact easeOutBounce_continuous_1|].
  split; [exact easeOutBounce_continuous_2|].
  split; [exact easeOutBounce_continuous_3|].
  split; [exact easeOutBounce_at_1|].
  split; [exact easeOutBounce_rising_1|].
  split; [exact easeOutBounce_falling_2|].
  split; [exact easeOutBounce_rising_2|].
  split; [exact easeOutBounce_falling_3|].
  split; [exact easeOutBounce_rising_3|].
  split; [exact easeOutBounce_falling_4|].
  exact easeOutBounce_rising_4.
Qed.

(** ** A roll in progress lifts and turns the cube *)

Lemma visualAngle_bounds a :
  0 < a < maxAngle -> 0 < visualAngle a < maxAngle.
Proof.
  intros (H0 & H1). unfold visualAngle.
  rewrite Rmin_left by lra.
  assert (Hm : 0 < maxAngle) by lra.
  assert (Hp : 0 < a / maxAngle < 1).
  { split; [apply Rdiv_lt_0_compat; lra|].
    apply (Rmult_lt_reg_r maxAngle); [exact Hm|].
    unfold Rdiv. rewrite Rmult_assoc, Rinv_l by lra. lra. }
  set (p := a / maxAngle) in *.
  assert (He : 0 < easeOutQuad p < 1) by (unfold easeOutQuad; nra).
  nra.
Qed.

Lemma rolling_cube_is_moving s r :
  rolling s = Some r -> landed s = true ->
  0 <= Rolling.angle r -> Rolling.angle r + rollSpeed < maxAngle ->
  Rolling.dx r <> 0 ->
  Vector3.y (position (cube (animate s))) > targetY /\
  Vector3.z (rotation (cube (animate s))) <> 0.
Proof.
  intros Hr Hl H0 Hlt Hdx.
  unfold animate. rewrite (fall_landed s Hl), (roll_continue s r Hr Hlt).
  assert (Hs : 0 < rollSpeed) by (unfold rollSpeed; pose proof PI_RGT_0; lra).
  destruct (visualAngle_bounds (Rolling.angle r + rollSpeed)) as (Hv0 & Hv1);
    [lra|].
  split.
  - rewrite rollPose_position. simpl.
    assert (0 < sin (visualAngle (Rolling.angle r + rollSpeed))).
    { apply sin_gt_0; [exact Hv0|]. unfold maxAngle in *.
      pose proof PI_RGT_0. lra. }
    unfold cubeSize. lra.
  - rewrite rollPose_rotation.
    apply neb_true in Hdx. rewrite Hdx. simpl.
    intros Hz. apply Rmult_integral in Hz. apply neb_true in Hdx.
    destruct Hz as [Hz | Hz]; [lra|contradiction].
Qed.

Lemma run_first_roll_frame s :
  run first_roll_frame s = animate (onKeyDown "a" (run (repeat Frame 90) s)).
Proof. unfold first_roll_frame. now rewrite run_app. Qed.

Lemma first_roll_frame_moves s1 :
  landed s1 = true -> rolling s1 = None -> cubeX s1 = 0 -> cubeZ s1 = -1 ->
  let s := animate (onKeyDown "a" s1) in
  time s = time s1 /\ landed s = true /\
  Vector3.y (position (cube s)) > targetY /\
  Vector3.z (rotation (cube s)) <> 0.
Proof.
  intros Hl Hr Hx Hz s.
  assert (Hacc : acceptable (-1) 0 s1).
  { unfold acceptable, in_bounds. rewrite bound_eq, Hx, Hz. unfold cubeSize.
    repeat split; auto; apply Rabs_le; lra. }
  assert (Hs : s = animate (set_rolling (Some (Rolling.mk (-1) 0 0)) s1)).
  { unfold s. now rewrite onKeyDown_a, (rollCube_accept _ _ _ Hacc). }
  remember (set_rolling (Some (Rolling.mk (-1) 0 0)) s1) as s2 eqn:Hs2.
  assert (Hl2 : landed s2 = true) by (rewrite Hs2; exact Hl).
  assert (Hr2 : rolling s2 = Some (Rolling.mk (-1) 0 0)) by now rewrite Hs2.
  assert (Ht2 : time s2 = time s1) by now rewrite Hs2.
  destruct (animate_landed s2 Hl2) as (Ht3 & Hl3).
  rewrite Hs. split; [congruence|]. split; [exact Hl3|].
  apply (rolling_cube_is_moving s2 (Rolling.mk (-1) 0 0) Hr2 Hl2).
  - simpl; lra.
  - simpl. unfold rollSpeed, maxAngle. pose proof PI_RGT_0. lra.
  - simpl; lra.
Qed.

(** C4, as stated, fails: after landing, pressing [a] and one more frame,
    the elapsed time is at least [fallDuration] while the cube is above the
    target height and rotated about the z axis. *)
Lemma rolling_after_landing_not_at_rest :
  let s := run first_roll_frame (mount host) in
  reachable s /\ time s >= fallDuration /\ landed s = true /\
  Vector3.y (position (cube s)) <> cubeSize / 2 /\
  Vector3.z (rotation (cube s)) <> 0.
Proof.
  intros s.
  split; [exists host, first_roll_frame; now left|].
  destruct (just_landed host) as (Hl & Hr & Hx & Hz & Ht).
  destruct (first_roll_frame_moves _ Hl Hr Hx Hz) as (Ht' & Hl' & Hy & Hrot).
  unfold s. rewrite run_first_roll_frame.
  split; [rewrite Ht'; exact Ht|].
  split; [exact Hl'|].
  split; [fold targetY; lra|exact Hrot].
Qed.

(** ** Resize *)

(** C8: when the host element measures [W] by [H] pixels with [H] not
    zero, the resize handler leaves the camera aspect ratio exactly [W / H]
    (and the projection matrix rebuilt from it) and the renderer output
    size exactly [(W, H)], and changes nothing else: cube position and
    rotation, grid position, landed flag, elapsed time and rolling record
    in the falling variant, the cube and the frame handle in the spinning
    variant. *)
Theorem handleResize_effect (W H : Z) (s : State) (sp : Spin.State) :
  H <> 0%Z ->
  let el := mkElement W H in
  let s' := handleResize (Some el) s in
  let sp' := Spin.handleResize (Some el) sp in
  (aspect (camera s') = IZR W / IZR H /\
   projectionAspect (camera s') = IZR W / IZR H /\
   width (renderer s') = W /\ height (renderer s') = H /\
   s' = mkState (time s) (landed s) (rolling s) (cubeX s) (cubeZ s) (cube s)
          (camera s') (renderer s')) /\
  (aspect (Spin.camera sp') = IZR W / IZR H /\
   projectionAspect (Spin.camera sp') = IZR W / IZR H /\
   width (Spin.renderer sp') = W /\ height (Spin.renderer sp') = H /\
   sp' = Spin.mkState (Spin.cube sp) (Spin.camera sp') (Spin.renderer sp')
           (Spin.frameId sp)).
Proof.
  intros _ el s' sp'. repeat split.
Qed.

(** ** The theorems at sample inputs *)

Lemma animate_roll_completes_witness :
  rolling last_roll_frame = Some (Rolling.mk (-1) 0 (9 * rollSpeed)) /\
  9 * rollSpeed + rollSpeed >= maxAngle /\
  cubeX (animate last_roll_frame) = 0 + -1 * cubeSize /\
  rolling (animate last_roll_frame) = None.
Proof.
  assert (Hge : 9 * rollSpeed + rollSpeed >= maxAngle)
    by (unfold rollSpeed, maxAngle; lra).
  split; [reflexivity|]. split; [exact Hge|].
  destruct (animate_roll_completes last_roll_frame
              (Rolling.mk (-1) 0 (9 * rollSpeed)) eq_refl Hge)
    as (Hx & _ & _ & _ & Hn & _).
  split; [exact Hx|exact Hn].
Defined.

Lemma landed_idle_at_rest_witness :
  let s := run (repeat Frame 90) (mount host) in
  reachable s /\
  (time s >= fallDuration <-> landed s = true) /\
  (time s >= fallDuration -> rolling s = None ->
     Vector3.y (position (cube s)) = cubeSize / 2 /\
     Vector3.x (rotation (cube s)) = 0 /\
     Vector3.y (rotation (cube s)) = 0 /\
     Vector3.z (rotation (cube s)) = 0).
Proof.
  intros s.
  assert (Hreach : reachable s)
    by (exists host, (repeat Frame 90); left; reflexivity).
  split; [exact Hreach|].
  exact (landed_idle_at_rest s Hreach).
Defined.

Lemma animate_roll_pose_witness :
  rolling last_roll_frame = Some (Rolling.mk (-1) 0 (9 * rollSpeed)) /\
  rolling (rollPose (Rolling.mk (-1) 0 (9 * rollSpeed)) (fall last_roll_frame)) =
    Some (Rolling.mk (-1) 0 (9 * rollSpeed + rollSpeed)).
Proof.
  split; [reflexivity|].
  destruct (animate_roll_pose last_roll_frame
              (Rolling.mk (-1) 0 (9 * rollSpeed)) eq_refl)
    as (_ & _ & _ & _ & Hr & _).
  exact Hr.
Defined.

Lemma roll_left_then_blocked_witness :
  let s := run (repeat Frame 90) (mount host) in
  (landed s = true /\ rolling s = None /\ cubeX s = 0 /\ cubeZ s = -1) /\
  cubeX (run (repeat Frame 10) (onKeyDown "a" s)) = -1 /\
  onKeyDown "a" (run (repeat Frame 10) (onKeyDown "a" s)) =
    run (repeat Frame 10) (onKeyDown "a" s).
Proof.
  intros s.
  destruct (just_landed host) as (Hl & Hr & Hx & Hz & _). fold s in Hl, Hr, Hx, Hz.
  split; [auto|].
  destruct (roll_left_then_blocked s Hl Hr Hx Hz)
    as (_ & _ & _ & _ & _ & Hx2 & _ & _ & Hs3 & _).
  split; [exact Hx2|exact Hs3].
Defined.

Lemma handleResize_effect_witness :
  600%Z <> 0%Z /\
  aspect (camera (handleResize (Some host) last_roll_frame)) = 800 / 600 /\
  renderer (handleResize (Some host) last_roll_frame) = mkRenderer 800 600 /\
  aspect (Spin.camera (Spin.handleResize (Some host) spinning)) = 800 / 600.
Proof.
  assert (Hnz : 600%Z <> 0%Z) by discriminate.
  split; [exact Hnz|].
  destruct (handleResize_effect 800 600 last_roll_frame spinning Hnz)
    as ((Ha & _ & Hw & Hh & _) & (Hsa & _)).
  split; [exact Ha|]. split; [reflexivity|exact Hsa].
Defined.

Lemma grid_position_on_platform_witness :
  let s := run first_roll_frame (mount host) in
  reachable s /\
  Rabs (cubeX s) <= largeCubeSize / 2 - cubeSize / 2 /\
  Rabs (cubeZ s) <= largeCubeSize / 2 - cubeSize / 2.
Proof.
  intros s.
  assert (Hreach : reachable s)
    by (exists host, first_roll_frame; left; reflexivity).
  split; [exact Hreach|].
  destruct (grid_position_on_platform s Hreach) as (_ & Hx & Hz & _).
  split; [exact Hx|exact Hz].
Defined.

Lemma roll_terminates_witness :
  let s := run (repeat Frame 90) (mount host) in
  acceptable (-1) 0 s /\
  rolling (run (repeat Frame 10) (rollCube (-1) 0 s)) = None.
Proof.
  intros s.
  destruct (just_landed host) as (Hl & Hr & Hx & Hz & _). fold s in Hl, Hr, Hx, Hz.
  assert (Hacc : acceptable (-1) 0 s).
  { unfold acceptable, in_bounds. rewrite bound_eq, Hx, Hz. unfold cubeSize.
    repeat split; auto; apply Rabs_le; lra. }
  split; [exact Hacc|].
  destruct (roll_terminates (-1) 0 s Hacc) as (_ & _ & _ & _ & Hn).
  exact Hn.
Defined.

(** ** Binary64 cross-checks

    Rounding does not change the outcome of a roll: ten increments of
    [rollSpeed] reach [maxAngle] in binary64 as they do over the reals, and
    [easeOutBounce 1] is exactly [1].  It does shift the landing frame:
    ninety increments of [1 / 60] stay just below [1.5] in binary64, so the
    program lands on frame 91 where exact arithmetic lands on frame 90. *)

Lemma binary64_easeOutBounce_at_1 : Binary64.easeOutBounce 1 = 1%float.
Proof. vm_compute. reflexivity. Qed.

Lemma binary64_roll_frames :
  PrimFloat.leb Binary64.maxAngle (Binary64.angle_after 9) = false /\
  PrimFloat.leb Binary64.maxAngle (Binary64.angle_after 10) = true.
Proof. split; vm_compute; reflexivity. Qed.

Lemma binary64_landing_frame :
  PrimFloat.ltb (Binary64.time_after 90) Binary64.fallDuration = true /\
  PrimFloat.ltb (Binary64.time_after 91) Binary64.fallDuration = false.
Proof. split; vm_compute; reflexivity. Qed.

(** * Further properties of the program *)

(** ** The easing curves *)

Lemma easeOutBounce_unit t : 0 <= t <= 1 -> 0 <= easeOutBounce t <= 1.
Proof.
  intros (H0 & H1).
  destruct (Rlt_le_dec t (1 / 2.75)) as [Ha | Ha];
    [rewrite easeOutBounce_1 by lra; nra|].
  destruct (Rlt_le_dec t (2 / 2.75)) as [Hb | Hb];
    [rewrite easeOutBounce_2 by lra; nra|].
  destruct (Rlt_le_dec t (2.5 / 2.75)) as [Hc | Hc];
    [rewrite easeOutBounce_3 by lra; nra|].
  rewrite easeOutBounce_4 by lra; nra.
Qed.

(** X1: on [[0, 1]] the bounce curve starts at [0] and stays within [[0, 1]]. *)
Theorem easeOutBounce_range (t : R) :
  0 <= t <= 1 ->
  easeOutBounce 0 = 0 /\ 0 <= easeOutBounce t <= 1.
Proof.
  intros Ht.
  split; [rewrite easeOutBounce_1; lra|now apply easeOutBounce_unit].
Qed.

Lemma easeOutBounce_range_witness :
  0 <= 0.5 <= 1 /\ 0 <= easeOutBounce 0.5 <= 1.
Proof.
  assert (H : 0 <= 0.5 <= 1) by lra.
  split; [exact H|]. exact (proj2 (easeOutBounce_range 0.5 H)).
Defined.

Lemma maxAngle_pos : 0 < maxAngle.
Proof. unfold maxAngle. pose proof PI_RGT_0. lra. Qed.

Lemma visualAngle_eq a :
  0 <= a <= maxAngle ->
  visualAngle a = maxAngle * ((a / maxAngle) * easeOutQuad (a / maxAngle)).
Proof.
  intros (H0 & H1). unfold visualAngle. rewrite Rmin_left by lra.
  pose proof maxAngle_pos. field. lra.
Qed.

Lemma progress_bounds a :
  0 <= a <= maxAngle -> 0 <= a / maxAngle <= 1.
Proof.
  intros (H0 & H1). pose proof maxAngle_pos as Hm.
  split; [apply Rmult_le_pos; [lra|left; now apply Rinv_0_lt_compat]|].
  apply (Rmult_le_reg_r maxAngle); [exact Hm|].
  unfold Rdiv. rewrite Rmult_assoc, Rinv_l by lra. lra.
Qed.

Lemma progress_lt a b :
  a < b -> a / maxAngle < b / maxAngle.
Proof.
  intros Hab. pose proof maxAngle_pos as Hm.
  apply Rmult_lt_compat_r; [now apply Rinv_0_lt_compat|exact Hab].
Qed.

Lemma visualAngle_capped a : maxAngle <= a -> visualAngle a = maxAngle.
Proof.
  intros Ha. unfold visualAngle. rewrite Rmin_right by lra.
  pose proof maxAngle_pos.
  replace (maxAngle / maxAngle) with 1 by (field; lra).
  unfold easeOutQuad. ring.
Qed.

Lemma visualAngle_increasing a b :
  0 <= a -> a < b -> b <= maxAngle -> visualAngle a < visualAngle b.
Proof.
  intros H0 Hab Hb.
  rewrite !visualAngle_eq by lra.
  pose proof (progress_bounds a) as Hp. pose proof (progress_bounds b) as Hq.
  pose proof (progress_lt a b Hab) as Hpq.
  set (p := a / maxAngle) in *. set (q := b / maxAngle) in *.
  apply Rmult_lt_compat_l; [apply maxAngle_pos|].
  unfold easeOutQuad.
  assert (Hp' : 0 <= p <= 1) by (apply Hp; lra).
  assert (Hq' : 0 <= q <= 1) by (apply Hq; lra).
  assert (Hd : 0 < q - p) by lra.
  assert (Hk : 0 < 2 * (q + p) - (q * q + q * p + p * p)) by nra.
  replace (q * (1 - (1 - q) * (1 - q)) - p * (1 - (1 - p) * (1 - p)))
    with ((q - p) * (2 * (q + p) - (q * q + q * p + p * p))) in * by ring.
  assert (Hprod := Rmult_lt_0_compat _ _ Hd Hk).
  replace (p * (1 - (1 - p) * (1 - p)))
    with (q * (1 - (1 - q) * (1 - q))
          - (q - p) * (2 * (q + p) - (q * q + q * p + p * p))) by ring.
  lra.
Qed.

Lemma visualAngle_zero : visualAngle 0 = 0.
Proof.
  pose proof maxAngle_pos.
  rewrite visualAngle_eq by lra. unfold Rdiv. rewrite Rmult_0_l. ring.
Qed.

Lemma visualAngle_mono u v :
  0 <= u -> u <= v -> visualAngle u <= visualAngle v.
Proof.
  intros Hu Huv. pose proof maxAngle_pos as Hm.
  destruct (Rle_lt_dec maxAngle u) as [Hcu | Hcu].
  - rewrite !visualAngle_capped by lra. lra.
  - destruct (Rle_lt_dec maxAngle v) as [Hcv | Hcv].
    + rewrite (visualAngle_capped v) by lra.
      destruct (Req_dec u maxAngle) as [-> | Hne]; [lra|].
      left. rewrite <- (visualAngle_capped maxAngle) by lra.
      apply visualAngle_increasing; lra.
    + destruct (Req_dec u v) as [-> | Hne]; [lra|].
      left. apply visualAngle_increasing; lra.
Qed.

Lemma visualAngle_lags a : 0 <= a -> visualAngle a <= Rmin a maxAngle.
Proof.
  intros H0. pose proof maxAngle_pos as Hm.
  destruct (Rle_lt_dec maxAngle a) as [Hc | Hc].
  - rewrite visualAngle_capped, Rmin_right by lra. lra.
  - rewrite Rmin_left by lra. rewrite visualAngle_eq by lra.
    pose proof (progress_bounds a) as Hp.
    assert (Ha : a = maxAngle * (a / maxAngle)) by (field; lra).
    set (p := a / maxAngle) in *.
    assert (Hp' : 0 <= p <= 1) by (apply Hp; lra).
    apply Rle_trans with (maxAngle * p); [|lra]. unfold easeOutQuad.
    apply Rmult_le_compat_l; [lra|].
    apply Rle_trans with (p * 1); [|lra].
    apply Rmult_le_compat_l; [lra|]. nra.
Qed.

Lemma visualAngle_range a : 0 <= a -> 0 <= visualAngle a <= maxAngle.
Proof.
  intros H0. split.
  - rewrite <- visualAngle_zero. apply visualAngle_mono; lra.
  - eapply Rle_trans; [now apply visualAngle_lags|apply Rmin_r].
Qed.

(** X2: the visual angle of a roll: it is [0] at angle [0], strictly
    increasing in the accumulated angle up to [maxAngle], never ahead of
    the accumulated angle, and exactly [maxAngle] from there on; so it
    stays within [[0, maxAngle]]. *)
Theorem visualAngle_profile (a b : R) :
  0 <= a -> a <= b ->
  visualAngle 0 = 0 /\
  (b <= maxAngle -> a < b -> visualAngle a < visualAngle b) /\
  (maxAngle <= a -> visualAngle a = maxAngle) /\
  visualAngle a <= visualAngle b /\
  0 <= visualAngle a <= Rmin a maxAngle.
Proof.
  intros H0 Hab.
  split; [exact visualAngle_zero|].
  split; [intros Hb Hlt; apply visualAngle_increasing; lra|].
  split; [apply visualAngle_capped|].
  split; [now apply visualAngle_mono|].
  split; [now apply visualAngle_range|now apply visualAngle_lags].
Qed.

Lemma visualAngle_profile_witness :
  0 <= rollSpeed /\ rollSpeed <= 2 * rollSpeed /\
  visualAngle rollSpeed < visualAngle (2 * rollSpeed).
Proof.
  pose proof PI_RGT_0 as Hpi.
  assert (H0 : 0 <= rollSpeed) by (unfold rollSpeed; lra).
  assert (H1 : rollSpeed <= 2 * rollSpeed) by lra.
  split; [exact H0|]. split; [exact H1|].
  destruct (visualAngle_profile rollSpeed (2 * rollSpeed) H0 H1)
    as (_ & Hinc & _).
  apply Hinc; unfold rollSpeed, maxAngle; lra.
Defined.

(** ** Key presses *)

(** X3: the four keys [w], [s], [a], [d] request a roll along [-z], [+z],
    [-x], [+x]; every other key (upper case included) leaves the state as
    it is; and whatever the key, the press changes nothing but the rolling
    record. *)
Theorem onKeyDown_keys (key : string) (s : State) :
  onKeyDown "w" s = rollCube 0 (-1) s /\
  onKeyDown "s" s = rollCube 0 1 s /\
  onKeyDown "a" s = rollCube (-1) 0 s /\
  onKeyDown "d" s = rollCube 1 0 s /\
  onKeyDown "W" s = s /\
  (key <> "w"%string -> key <> "s"%string ->
   key <> "a"%string -> key <> "d"%string -> onKeyDown key s = s) /\
  (onKeyDown key s = s \/
   exists dx dz, In (dx, dz) directions /\
     onKeyDown key s = set_rolling (Some (Rolling.mk dx dz 0)) s).
Proof.
  repeat (split; [reflexivity|]).
  split.
  - intros Hw Hs Ha Hd. unfold onKeyDown.
    apply String.eqb_neq in Hw, Hs, Ha, Hd. now rewrite Hw, Hs, Ha, Hd.
  - apply (onKeyDown_preserves
             (fun t => t = s \/
                exists dx dz, In (dx, dz) directions /\
                  t = set_rolling (Some (Rolling.mk dx dz 0)) s));
      [|now left].
    intros dx dz t Hin [-> | (dx' & dz' & Hin' & ->)].
    + destruct (acceptable_dec dx dz s) as [Ha | Hn].
      * right. exists dx, dz. split; [exact Hin|now apply rollCube_accept].
      * left. now apply rollCube_reject.
    + right. exists dx', dz'. split; [exact Hin'|].
      apply rollCube_reject. intros (_ & Hnone & _). discriminate.
Qed.

(** ** The pose of the cube in every reachable state *)

Lemma small_wobble : 0.05 <= maxAngle.
Proof. unfold maxAngle. pose proof PI2_1. lra. Qed.

Lemma Rabs_scaled_trig (v : R) : -1 <= v <= 1 -> Rabs (v * 0.05) <= 0.05.
Proof. intros Hv. apply Rabs_le. lra. Qed.

Lemma posed_initial el : posed (initial el).
Proof.
  pose proof maxAngle_pos. unfold posed; simpl.
  unfold targetY, startY, cubeSize. rewrite Rabs_R0.
  repeat split; try lra; discriminate.
Qed.

Lemma posed_fall s : rests_when_idle s -> posed s -> posed (fall s).
Proof.
  intros Hrest Hposed.
  destruct (landed s) eqn:Hl; [now rewrite fall_landed|].
  destruct Hrest as (Hidle & _).
  destruct Hposed as (Ht & Hy & Hry & Hrx & Hrz & Hwob & Hgrid & Hroll).
  pose proof (Hidle Hl) as Hnone.
  pose proof small_wobble as Hsw.
  unfold fall. rewrite Hl. simpl.
  destruct (Num.ltb (time s + 1 / 60) fallDuration) eqn:Hlt.
  - apply ltb_true in Hlt. unfold posed; simpl. rewrite Hnone, Hl.
    assert (He : 0 <= easeOutBounce ((time s + 1 / 60) / fallDuration) <= 1).
    { apply easeOutBounce_unit. unfold fallDuration in *. lra. }
    pose proof (Rabs_scaled_trig _ (SIN_bound ((time s + 1 / 60) * 3))).
    pose proof (Rabs_scaled_trig _ (COS_bound ((time s + 1 / 60) * 2))).
    unfold startY, targetY, cubeSize in *.
    repeat split; try lra; try tauto; try nra; try discriminate.
  - unfold posed; simpl. rewrite Hnone. rewrite Rabs_R0.
    pose proof maxAngle_pos. unfold startY, targetY, cubeSize in *.
    repeat split; try lra; try tauto; try discriminate.
Qed.

Lemma directions_cases dx dz :
  In (dx, dz) directions ->
  (dx = 0 /\ dz = -1) \/ (dx = 0 /\ dz = 1) \/
  (dx = -1 /\ dz = 0) \/ (dx = 1 /\ dz = 0).
Proof.
  unfold directions; simpl.
  intros [H | [H | [H | [H | []]]]]; injection H as <- <-; auto 6.
Qed.

Lemma quarter_turn_trig theta :
  0 <= theta <= maxAngle ->
  0 <= cos theta <= 1 /\ 0 <= sin theta <= 1.
Proof.
  unfold maxAngle. intros (H0 & H1). pose proof PI_RGT_0.
  split; split.
  - apply cos_ge_0; lra.
  - apply COS_bound.
  - apply sin_ge_0; lra.
  - apply SIN_bound.
Qed.

Lemma posed_rollPose r s :
  landed s = true -> rolling s = Some r ->
  Rolling.angle r + rollSpeed < maxAngle ->
  posed s -> posed (rollPose r s).
Proof.
  intros Hl Hr Hlt (Ht & Hy & Hry & Hrx & Hrz & Hwob & Hgrid & Hroll).
  destruct (Hroll r Hr) as (Hdir & (Ha0 & Ha1) & _).
  assert (Hs : 0 < rollSpeed) by (unfold rollSpeed; pose proof PI_RGT_0; lra).
  pose proof (visualAngle_range (Rolling.angle r + rollSpeed)) as Hv.
  pose proof (quarter_turn_trig (visualAngle (Rolling.angle r + rollSpeed))) as Htrig.
  destruct (rollPose_keeps r s) as (Kt & Kl & Kx & Kz & _ & _ & Kr).
  pose proof (rollPose_position r s) as Kp. simpl in Kp.
  pose proof (rollPose_rotation r s) as Krot. simpl in Krot.
  set (theta := visualAngle (Rolling.angle r + rollSpeed)) in *.
  assert (Hth : 0 <= theta <= maxAngle) by (apply Hv; lra).
  destruct (Htrig Hth) as ((Hc0 & Hc1) & (Hs0 & Hs1)).
  unfold posed. rewrite Kt, Kl, Kx, Kz, Kr, Kp, Krot. simpl.
  unfold targetY, startY, cubeSize in *.
  assert (Hrotok :
    let rot := if Num.neb (Rolling.dx r) 0
               then Vector3.with_z (rotation (cube s)) (- theta * Rolling.dx r)
               else if Num.neb (Rolling.dz r) 0
                    then Vector3.with_x (rotation (cube s)) (theta * Rolling.dz r)
                    else rotation (cube s) in
    Vector3.y rot = 0 /\ Rabs (Vector3.x rot) <= maxAngle /\
    Rabs (Vector3.z rot) <= maxAngle).
  { destruct (directions_cases _ _ Hdir) as [(Hdx & Hdz) | [(Hdx & Hdz) |
      [(Hdx & Hdz) | (Hdx & Hdz)]]]; rewrite Hdx, Hdz; simpl.
    - replace (Num.neb 0 0) with false by (symmetry; now apply neb_false).
      replace (Num.neb (-1) 0) with true by (symmetry; apply neb_true; lra).
      simpl. repeat split; auto. apply Rabs_le; lra.
    - replace (Num.neb 0 0) with false by (symmetry; now apply neb_false).
      replace (Num.neb 1 0) with true by (symmetry; apply neb_true; lra).
      simpl. repeat split; auto. apply Rabs_le; lra.
    - replace (Num.neb (-1) 0) with true by (symmetry; apply neb_true; lra).
      simpl. repeat split; auto. apply Rabs_le; lra.
    - replace (Num.neb 1 0) with true by (symmetry; apply neb_true; lra).
      simpl. repeat split; auto. apply Rabs_le; lra. }
  destruct Hrotok as (R1 & R2 & R3).
  split; [exact Ht|]. split; [lra|].
  split; [exact R1|]. split; [exact R2|]. split; [exact R3|].
  split; [intros Hf; rewrite Hl in Hf; discriminate|].
  split; [discriminate|].
  intros r' [= <-]. simpl.
  split; [exact Hdir|]. split; [lra|].
  destruct (directions_cases _ _ Hdir) as [(Hdx & Hdz) | [(Hdx & Hdz) |
    [(Hdx & Hdz) | (Hdx & Hdz)]]]; rewrite Hdx, Hdz;
    (split; [apply Rabs_le; lra|]); (split; [apply Rabs_le; lra|]); lra.
Qed.

Lemma posed_snapToGrid dx dz s : 0 <= time s -> posed (snapToGrid dx dz s).
Proof.
  intros Ht. pose proof maxAngle_pos.
  unfold posed; simpl. rewrite Rabs_R0.
  unfold targetY, startY, cubeSize in *.
  repeat split; try lra; try discriminate.
Qed.

Lemma posed_roll s : rests_when_idle s -> posed s -> posed (roll s).
Proof.
  intros (Hidle & _) Hp. unfold roll.
  destruct (rolling s) as [r|] eqn:Hr; [|exact Hp].
  assert (Hl : landed s = true).
  { destruct (landed s) eqn:Hl; [reflexivity|].
    specialize (Hidle eq_refl). discriminate. }
  destruct (Num.geb (Rolling.angle r + rollSpeed) maxAngle) eqn:Hge.
  - apply posed_snapToGrid.
    destruct (rollPose_keeps r s) as (-> & _). apply Hp.
  - apply geb_false in Hge. now apply posed_rollPose.
Qed.

Lemma fall_rests_when_idle s : rests_when_idle s -> rests_when_idle (fall s).
Proof.
  intros Hrests.
  destruct (fall_keeps s) as (Hr & _).
  destruct (landed s) eqn:Hl; [now rewrite fall_landed|].
  destruct Hrests as (Hidle & Hrest).
  split; [intros _; rewrite Hr; auto|].
  intros Hl' _. now apply fall_lands.
Qed.

Lemma posed_animate s : rests_when_idle s -> posed s -> posed (animate s).
Proof.
  intros Hrest Hp. unfold animate.
  apply posed_roll; [now apply fall_rests_when_idle|now apply posed_fall].
Qed.

Lemma posed_rollCube dx dz s :
  In (dx, dz) directions -> rests_when_idle s -> posed s ->
  posed (rollCube dx dz s).
Proof.
  intros Hin (_ & Hrest) Hp.
  destruct (acceptable_dec dx dz s) as [Ha | Hn];
    [|now rewrite rollCube_reject].
  rewrite (rollCube_accept _ _ _ Ha).
  destruct Ha as (Hl & Hnone & _).
  destruct (Hrest Hl Hnone) as (Hy & _).
  destruct Hp as (Ht & Hyy & Hry & Hrx & Hrz & Hwob & Hgrid & Hroll).
  destruct (Hgrid Hnone) as (Hx & Hz).
  pose proof maxAngle_pos.
  unfold posed; simpl. rewrite Hx, Hz, Hy.
  unfold Rminus. rewrite !Rplus_opp_r, Rabs_R0.
  unfold targetY, startY, cubeSize in *.
  split; [exact Ht|]. split; [lra|]. split; [exact Hry|].
  split; [exact Hrx|]. split; [exact Hrz|]. split; [exact Hwob|].
  split; [discriminate|].
  intros r [= <-]; simpl.
  split; [exact Hin|]. repeat split; lra.
Qed.

Lemma posed_handleResize m s : posed s -> posed (handleResize m s).
Proof.
  unfold posed.
  destruct (handleResize_keeps m s) as (-> & -> & -> & -> & -> & ->). auto.
Qed.

Lemma reachable_posed s : reachable s -> posed s.
Proof.
  intros Hreach.
  cut (rests_when_idle s /\ posed s); [tauto|].
  revert s Hreach. apply reachable_induction.
  - intros el. split; [apply rests_when_idle_initial|apply posed_initial].
  - intros s (Hr & Hp).
    split; [now apply rests_when_idle_animate|now apply posed_animate].
  - intros dx dz s Hin (Hr & Hp).
    split; [now apply rests_when_idle_rollCube|now apply posed_rollCube].
  - intros m s (Hr & Hp).
    split; [now apply rests_when_idle_handleResize|now apply posed_handleResize].
Qed.

(** X4: in every reachable state the cube is between the top of the platform
    and its start height: [targetY <= position.y <= startY], that is
    [0.5 <= position.y <= 8].  It never sinks into the platform. *)
Theorem cube_height_bounds (s : State) :
  reachable s ->
  cubeSize / 2 <= Vector3.y (position (cube s)) <= 8.
Proof.
  intros Hreach. destruct (reachable_posed s Hreach) as (_ & Hy & _).
  exact Hy.
Qed.

(** X5: in every reachable state the mesh follows the grid position: with no
    roll in progress [position.x = cubeX] and [position.z = cubeZ]
    exactly; during a roll the mesh is at most half a cell away from
    [(cubeX, cubeZ)] and at most half a cell above the target height, so
    the second half of the step to the next cell happens in the snap of
    the completing frame. *)
Theorem mesh_follows_grid (s : State) :
  reachable s ->
  (rolling s = None ->
     Vector3.x (position (cube s)) = cubeX s /\
     Vector3.z (position (cube s)) = cubeZ s) /\
  (forall r, rolling s = Some r ->
     Rabs (Vector3.x (position (cube s)) - cubeX s) <= cubeSize / 2 /\
     Rabs (Vector3.z (position (cube s)) - cubeZ s) <= cubeSize / 2 /\
     targetY <= Vector3.y (position (cube s)) <= targetY + cubeSize / 2).
Proof.
  intros Hreach.
  destruct (reachable_posed s Hreach) as (_ & _ & _ & _ & _ & _ & Hgrid & Hroll).
  split; [exact Hgrid|].
  intros r Hr. destruct (Hroll r Hr) as (_ & _ & H). exact H.
Qed.

(** X6: in every reachable state the cube has not turned about the vertical
    axis ([rotation.y = 0]) and is at most a quarter turn over about the
    other two; while it falls the wobble about x and z stays within
    [0.05] radians. *)
Theorem cube_rotation_bounds (s : State) :
  reachable s ->
  Vector3.y (rotation (cube s)) = 0 /\
  Rabs (Vector3.x (rotation (cube s))) <= PI / 2 /\
  Rabs (Vector3.z (rotation (cube s))) <= PI / 2 /\
  (landed s = false ->
     Rabs (Vector3.x (rotation (cube s))) <= 0.05 /\
     Rabs (Vector3.z (rotation (cube s))) <= 0.05).
Proof.
  intros Hreach.
  destruct (reachable_posed s Hreach) as (_ & _ & Hry & Hrx & Hrz & Hwob & _).
  auto.
Qed.

(** X7: a roll in progress in a reachable state was requested by one of the
    four keys, on a landed cube, and its accumulated angle is within
    [[0, maxAngle)]. *)
Theorem roll_in_progress (s : State) (r : Rolling.t) :
  reachable s -> rolling s = Some r ->
  landed s = true /\
  In (Rolling.dx r, Rolling.dz r) directions /\
  0 <= Rolling.angle r < PI / 2.
Proof.
  intros Hreach Hr.
  destruct (reachable_posed s Hreach) as (_ & _ & _ & _ & _ & _ & _ & Hroll).
  destruct (Hroll r Hr) as (Hdir & Ha & _).
  destruct (reachable_rests_when_idle s Hreach) as (Hidle & _).
  split; [|auto].
  destruct (landed s); [reflexivity|].
  specialize (Hidle eq_refl). congruence.
Qed.

(** ** Resizes and the motion of the cube are independent *)

Lemma handleResize_Some el s :
  handleResize (Some el) s =
  with_view (let a := IZR (clientWidth el) / IZR (clientHeight el) in
             mkCamera a a)
    (mkRenderer (clientWidth el) (clientHeight el)) s.
Proof. reflexivity. Qed.

Lemma fall_with_view c rd s : fall (with_view c rd s) = with_view c rd (fall s).
Proof.
  unfold fall, with_view; simpl.
  destruct (landed s); simpl; [reflexivity|].
  destruct (Num.ltb (time s + 1 / 60) fallDuration); reflexivity.
Qed.

Lemma rollPose_with_view c rd r s :
  rollPose r (with_view c rd s) = with_view c rd (rollPose r s).
Proof.
  unfold rollPose, with_view; simpl.
  destruct (Num.neb (Rolling.dx r) 0); [reflexivity|].
  destruct (Num.neb (Rolling.dz r) 0); reflexivity.
Qed.

Lemma snapToGrid_with_view c rd dx dz s :
  snapToGrid dx dz (with_view c rd s) = with_view c rd (snapToGrid dx dz s).
Proof. reflexivity. Qed.

Lemma roll_with_view c rd s : roll (with_view c rd s) = with_view c rd (roll s).
Proof.
  unfold roll.
  change (rolling (with_view c rd s)) with (rolling s).
  destruct (rolling s) as [r|]; [|reflexivity].
  rewrite rollPose_with_view.
  destruct (Num.geb (Rolling.angle r + rollSpeed) maxAngle); [|reflexivity].
  apply snapToGrid_with_view.
Qed.

Lemma animate_with_view c rd s :
  animate (with_view c rd s) = with_view c rd (animate s).
Proof. unfold animate. now rewrite fall_with_view, roll_with_view. Qed.

Lemma rollCube_with_view c rd dx dz s :
  rollCube dx dz (with_view c rd s) = with_view c rd (rollCube dx dz s).
Proof.
  unfold rollCube, with_view; simpl.
  destruct (negb (landed s) || truthy (rolling s)); [reflexivity|].
  destruct (_ || _); reflexivity.
Qed.

Lemma onKeyDown_with_view c rd key s :
  onKeyDown key (with_view c rd s) = with_view c rd (onKeyDown key s).
Proof.
  unfold onKeyDown.
  destruct (String.eqb key "w"), (String.eqb key "s"),
    (String.eqb key "a"), (String.eqb key "d");
    now rewrite ?rollCube_with_view.
Qed.

Lemma with_view_twice c rd c' rd' s :
  with_view c' rd' (with_view c rd s) = with_view c' rd' s.
Proof. reflexivity. Qed.

Lemma with_view_initial el :
  initial el =
  with_view (let a := IZR (clientWidth el) / IZR (clientHeight el) in
             mkCamera a a)
    (mkRenderer (clientWidth el) (clientHeight el)) (initial el).
Proof. reflexivity. Qed.

Lemma without_resizes_snoc evs e :
  without_resizes (evs ++ [e]) =
  without_resizes evs ++ match e with Resize _ => [] | _ => [e] end.
Proof.
  unfold without_resizes. rewrite filter_app. simpl. now destruct e.
Qed.

Lemma last_host_snoc el evs e :
  last_host el (evs ++ [e]) =
  match e with Resize (Some el') => el' | _ => last_host el evs end.
Proof. unfold last_host. now rewrite fold_left_app. Qed.

Lemma run_without_resizes el evs :
  run evs (mount el) =
  handleResize (Some (last_host el evs)) (run (without_resizes evs) (mount el)).
Proof.
  induction evs as [|e evs IH] using rev_ind.
  - simpl. unfold mount. rewrite (with_view_initial el) at 1.
    now rewrite animate_with_view.
  - rewrite run_snoc, without_resizes_snoc, last_host_snoc, IH.
    destruct e as [|key|[el'|]]; cbn [step].
    + now rewrite run_snoc_frame, !handleResize_Some, animate_with_view.
    + rewrite run_snoc. cbn [step].
      now rewrite !handleResize_Some, onKeyDown_with_view.
    + rewrite app_nil_r, !handleResize_Some. apply with_view_twice.
    + now rewrite app_nil_r.
Qed.

(** X8: resizes and the motion of the cube do not interfere: the resize
    handler commutes with the frame update and with the key handler, a
    later resize that finds the host overrides an earlier one, and so the
    state after any trace is the state after the same trace without its
    resizes, with camera aspect, projection and renderer size taken from
    the host element last measured. *)
Theorem resize_independent (el : Element) (evs : list Event)
    (m : MountRef) (el' : Element) (key : string) (s : State) :
  handleResize m (animate s) = animate (handleResize m s) /\
  handleResize m (onKeyDown key s) = onKeyDown key (handleResize m s) /\
  handleResize (Some el') (handleResize m s) = handleResize (Some el') s /\
  run evs (mount el) =
    handleResize (Some (last_host el evs))
      (run (without_resizes evs) (mount el)) /\
  (let h := last_host el evs in
   let a := IZR (clientWidth h) / IZR (clientHeight h) in
   camera (run evs (mount el)) = mkCamera a a /\
   renderer (run evs (mount el)) = mkRenderer (clientWidth h) (clientHeight h)).
Proof.
  split; [destruct m; [now rewrite !handleResize_Some, animate_with_view|reflexivity]|].
  split; [destruct m; [now rewrite !handleResize_Some, onKeyDown_with_view|reflexivity]|].
  split; [destruct m; reflexivity|].
  split; [apply run_without_resizes|].
  rewrite run_without_resizes. split; reflexivity.
Qed.

(** ** Rolls as steps on the grid *)

Lemma run_cons e evs s : run (e :: evs) s = run evs (step s e).
Proof. reflexivity. Qed.

Lemma animate_view s :
  camera (animate s) = camera s /\ renderer (animate s) = renderer s.
Proof.
  unfold animate.
  destruct (roll_keeps (fall s)) as (_ & _ & -> & ->).
  destruct (fall_keeps s) as (_ & _ & _ & -> & ->). auto.
Qed.

Lemma run_frames_landed n s :
  landed s = true ->
  time (run (repeat Frame n) s) = time s /\
  camera (run (repeat Frame n) s) = camera s /\
  renderer (run (repeat Frame n) s) = renderer s.
Proof.
  revert s. induction n as [|n IH]; intros s Hl; [simpl; auto|].
  cbn [repeat]. rewrite run_cons. cbn [step].
  destruct (animate_landed s Hl) as (Ht & Hl').
  destruct (animate_view s) as (Hc & Hr).
  destruct (IH (animate s) Hl') as (-> & -> & ->). auto.
Qed.

Lemma State_eta s :
  s = mkState (time s) (landed s) (rolling s) (cubeX s) (cubeZ s)
        (mkMesh (position (cube s)) (rotation (cube s))) (camera s) (renderer s).
Proof. destruct s as [? ? ? ? ? [? ?] ? ?]. reflexivity. Qed.

(** The state ten frames after an accepted request. *)
Lemma roll_lands_on_next_cell dx dz s :
  acceptable dx dz s ->
  run (repeat Frame 10) (rollCube dx dz s) =
  mkState (time s) true None
    (cubeX s + dx * cubeSize) (cubeZ s + dz * cubeSize)
    (mkMesh (Vector3.set (cubeX s + dx * cubeSize) targetY
               (cubeZ s + dz * cubeSize))
            (Vector3.set 0 0 0))
    (camera s) (renderer s).
Proof.
  intros Ha.
  rewrite (rollCube_accept _ _ _ Ha). destruct Ha as (Hl & Hnone & _).
  remember (set_rolling (Some (Rolling.mk dx dz 0)) s) as s0 eqn:Hs0.
  assert (Hr0 : rolling s0 = Some (Rolling.mk dx dz 0)) by now rewrite Hs0.
  assert (Hl0 : landed s0 = true) by now rewrite Hs0.
  destruct (roll_tenth_frame dx dz s0 (repeat Frame 9) Hr0 Hl0 (frames_repeat 9))
    as (Hn & Hx & Hz & Hp & Hrot & Hl10).
  rewrite <- run_snoc_frame in Hn, Hx, Hz, Hp, Hrot, Hl10.
  change (repeat Frame 9 ++ [Frame]) with (repeat Frame 10) in *.
  destruct (run_frames_landed 10 s0 Hl0) as (Ht & Hc & Hrd).
  rewrite (State_eta (run (repeat Frame 10) s0)).
  rewrite Hn, Hp, Hrot, Hl10, Ht, Hc, Hrd, Hx, Hz.
  rewrite Hs0. reflexivity.
Qed.

(** X9: rolling to a neighbouring cell and back is a round trip: from a
    reachable state in which a request in direction [(dx, dz)] is
    accepted, that roll followed by the roll in direction [(-dx, -dz)]
    (ten frames each) leads back to the very same state. *)
Theorem roll_there_and_back (dx dz : R) (s : State) :
  reachable s -> acceptable dx dz s ->
  let s1 := run (repeat Frame 10) (rollCube dx dz s) in
  acceptable (- dx) (- dz) s1 /\
  run (repeat Frame 10) (rollCube (- dx) (- dz) s1) = s.
Proof.
  intros Hreach Ha s1.
  pose proof (roll_lands_on_next_cell dx dz s Ha) as Hs1. fold s1 in Hs1.
  destruct (reachable_on_platform s Hreach) as (i & j & Hx & Hz & Hi & Hj & _).
  destruct (reachable_posed s Hreach) as (_ & _ & _ & _ & _ & _ & Hgrid & _).
  destruct (reachable_rests_when_idle s Hreach) as (_ & Hrest).
  destruct Ha as (Hl & Hnone & _).
  destruct (Hgrid Hnone) as (Hpx & Hpz).
  destruct (Hrest Hl Hnone) as (Hpy & Hrot).
  assert (Hback : acceptable (- dx) (- dz) s1).
  { rewrite Hs1. unfold acceptable, in_bounds; simpl.
    split; [reflexivity|]. split; [reflexivity|].
    replace (cubeX s + dx * cubeSize + - dx * cubeSize) with (cubeX s) by ring.
    replace (cubeZ s + dz * cubeSize + - dz * cubeSize) with (cubeZ s) by ring.
    rewrite bound_eq, Hx, Hz. split; now apply Rabs_le_of_Zabs. }
  split; [exact Hback|].
  rewrite (roll_lands_on_next_cell _ _ _ Hback), Hs1. simpl.
  replace (cubeX s + dx * cubeSize + - dx * cubeSize) with (cubeX s) by ring.
  replace (cubeZ s + dz * cubeSize + - dz * cubeSize) with (cubeZ s) by ring.
  symmetry. etransitivity; [apply State_eta|].
  rewrite Hl, Hnone, Hrot. do 2 f_equal.
  destruct (position (cube s)) as [px py pz]. simpl in *. congruence.
Qed.

(** ** Every cell of the platform can be reached *)

Lemma route_app ks1 ks2 : route (ks1 ++ ks2) = route ks1 ++ route ks2.
Proof. unfold route. now rewrite map_app, concat_app. Qed.

Lemma route_cons k ks : route (k :: ks) = press k ++ route ks.
Proof. reflexivity. Qed.

Lemma run_press key s : run (press key) s = run (repeat Frame 10) (onKeyDown key s).
Proof. unfold press. now rewrite run_cons. Qed.

Lemma press_moves key (a b i j : Z) s :
  onKeyDown key s = rollCube (IZR a) (IZR b) s ->
  idle_at i j s ->
  (Z.abs (i + a) <= 1)%Z -> (Z.abs (j + b) <= 1)%Z ->
  idle_at (i + a) (j + b) (run (press key) s).
Proof.
  intros Hkey (Hl & Hnone & Hx & Hz) Hia Hjb.
  rewrite run_press, Hkey.
  assert (Hacc : acceptable (IZR a) (IZR b) s).
  { unfold acceptable, in_bounds. rewrite bound_eq, Hx, Hz. unfold cubeSize.
    rewrite !Rmult_1_r, <- !plus_IZR.
    repeat split; auto using Rabs_le_of_Zabs. }
  rewrite (roll_lands_on_next_cell _ _ _ Hacc).
  unfold idle_at; simpl. unfold cubeSize.
  rewrite Hx, Hz, !Rmult_1_r, <- !plus_IZR. auto.
Qed.

Lemma idle_at_eq i j i' j' s :
  i = i' -> j = j' -> idle_at i j s -> idle_at i' j' s.
Proof. now intros -> ->. Qed.

Lemma steps_along_z (n : nat) : forall (i j : Z) s,
  idle_at i j s -> (Z.abs i <= 1)%Z -> (-1 <= j)%Z -> (j + Z.of_nat n <= 1)%Z ->
  idle_at i (j + Z.of_nat n) (run (route (repeat "s"%string n)) s).
Proof.
  induction n as [|n IH]; intros i j s Hs Hi Hj Hn.
  - simpl. now rewrite Z.add_0_r.
  - cbn [repeat]. rewrite route_cons, run_app.
    replace (j + Z.of_nat (S n))%Z with ((j + 1) + Z.of_nat n)%Z by lia.
    apply IH; try lia.
    apply (idle_at_eq (i + 0) (j + 1)); [lia|lia|].
    apply press_moves; [reflexivity|exact Hs|lia|lia].
Qed.

Lemma run_route_one key s : run (route [key]) s = run (press key) s.
Proof. unfold route. cbn [map concat]. now rewrite app_nil_r. Qed.

Lemma step_along_x (i : Z) s :
  idle_at 0 (-1) s -> (Z.abs i <= 1)%Z ->
  idle_at i (-1)
    (run (route (if (i <? 0)%Z then ["a"%string]
                 else if (0 <? i)%Z then ["d"%string] else [])) s).
Proof.
  intros Hs Hi.
  destruct (Z.ltb_spec i 0) as [Hneg | Hnn].
  - rewrite run_route_one.
    apply (idle_at_eq (0 + -1) (-1 + 0)); [lia|lia|].
    apply press_moves; [reflexivity|exact Hs|lia|lia].
  - destruct (Z.ltb_spec 0 i) as [Hpos | Hz].
    + rewrite run_route_one.
      apply (idle_at_eq (0 + 1) (-1 + 0)); [lia|lia|].
      apply press_moves; [reflexivity|exact Hs|lia|lia].
    + apply (idle_at_eq 0 (-1)); [lia|lia|]. exact Hs.
Qed.

Lemma route_reaches_cell (i j : Z) s :
  (Z.abs i <= 1)%Z -> (Z.abs j <= 1)%Z ->
  idle_at 0 (-1) s -> idle_at i j (run (route (keys_to i j)) s).
Proof.
  intros Hi Hj H0.
  apply (step_along_x i) in H0; [|exact Hi].
  unfold keys_to. rewrite route_app, run_app.
  apply (idle_at_eq i (-1 + Z.of_nat (Z.to_nat (j + 1)))); [lia|lia|].
  apply steps_along_z; [exact H0|exact Hi|lia|lia].
Qed.

(** X10: every cell [(i, j)] of the 3 x 3 platform can be reached: from a
    landed, idle cube on the initial cell [(0, -1)] at most one press of
    [a] or [d] and at most two presses of [s], each followed by the ten
    frames of its roll, leave the cube idle on that cell; the state the
    component is in after the set-up call and 90 frame callbacks is such a
    starting state. *)
Theorem every_cell_reachable (el : Element) (s0 : State) (i j : Z) :
  (Z.abs i <= 1)%Z -> (Z.abs j <= 1)%Z ->
  (length (keys_to i j) <= 3)%nat /\
  (landed s0 = true -> rolling s0 = None -> cubeX s0 = 0 -> cubeZ s0 = -1 ->
   let s := run (route (keys_to i j)) s0 in
   landed s = true /\ rolling s = None /\ cubeX s = IZR i /\ cubeZ s = IZR j) /\
  let s := run (repeat Frame 90 ++ route (keys_to i j)) (mount el) in
  reachable s /\
  landed s = true /\ rolling s = None /\ cubeX s = IZR i /\ cubeZ s = IZR j.
Proof.
  intros Hi Hj.
  split.
  { unfold keys_to. rewrite length_app, repeat_length.
    destruct (i <? 0)%Z; [simpl; lia|]. destruct (0 <? i)%Z; simpl; lia. }
  split.
  { intros Hl Hr Hx Hz.
    apply (route_reaches_cell i j s0 Hi Hj). unfold idle_at. auto. }
  intros s.
  split; [exists el, (repeat Frame 90 ++ route (keys_to i j)); now left|].
  destruct (just_landed el) as (Hl & Hr & Hx & Hz & _).
  assert (H0 : idle_at 0 (-1) (run (repeat Frame 90) (mount el)))
    by (unfold idle_at; auto).
  apply (route_reaches_cell i j _ Hi Hj) in H0.
  unfold s. rewrite run_app. exact H0.
Qed.

(** ** The spinning cube *)

Lemma spin_animate_rotation h s :
  let rot := rotation (Spin.cube s) in
  rotation (Spin.cube (Spin.animate h s)) =
    Vector3.set (Vector3.x rot + 0.01) (Vector3.y rot + 0.01) (Vector3.z rot) /\
  position (Spin.cube (Spin.animate h s)) = position (Spin.cube s) /\
  Spin.camera (Spin.animate h s) = Spin.camera s /\
  Spin.renderer (Spin.animate h s) = Spin.renderer s /\
  Spin.frameId (Spin.animate h s) = h.
Proof. simpl. auto. Qed.

Lemma spin_resize_cube m s :
  Spin.cube (Spin.handleResize m s) = Spin.cube s /\
  Spin.frameId (Spin.handleResize m s) = Spin.frameId s.
Proof. destruct m; simpl; auto. Qed.

Lemma spin_run_snoc evs e s :
  SpinLoop.run (evs ++ [e]) s = SpinLoop.step (SpinLoop.run evs s) e.
Proof. unfold SpinLoop.run. now rewrite fold_left_app. Qed.

Lemma spin_last_handle_snoc h evs e :
  SpinLoop.last_handle h (evs ++ [e]) =
  match e with
  | SpinLoop.Frame h' => h'
  | SpinLoop.Resize _ => SpinLoop.last_handle h evs
  end.
Proof. unfold SpinLoop.last_handle. now rewrite fold_left_app. Qed.

Lemma spin_invariant el h evs :
  let s := SpinLoop.run evs (SpinLoop.mount el h) in
  let rot := rotation (Spin.cube s) in
  Vector3.x rot = Vector3.y rot /\ 0 < Vector3.x rot /\ Vector3.z rot = 0 /\
  position (Spin.cube s) = Vector3.set 0 0 0 /\
  Spin.frameId s = SpinLoop.last_handle h evs.
Proof.
  induction evs as [|e evs IH] using rev_ind.
  - cbv zeta. cbn. repeat split; lra.
  - cbv zeta in *. rewrite spin_run_snoc, spin_last_handle_snoc.
    destruct IH as (Hxy & Hpos & Hz & Hp & Hid).
    destruct e as [h'|m]; cbn [SpinLoop.step].
    + destruct (spin_animate_rotation h' (SpinLoop.run evs (SpinLoop.mount el h)))
        as (-> & -> & _ & _ & ->).
      cbn [Vector3.x Vector3.y Vector3.z].
      repeat split; auto; lra.
    + destruct (spin_resize_cube m (SpinLoop.run evs (SpinLoop.mount el h)))
        as (-> & ->).
      auto.
Qed.

(** X12: in the spinning variant a frame update adds [0.01] to
    [rotation.x] and to [rotation.y] and stores the handle of the new
    request in [frameId], and changes nothing else; a resize does not touch
    the cube or [frameId].  So in every state of the loop [rotation.x] and
    [rotation.y] are equal and positive and never decrease (nothing resets
    or wraps them), [rotation.z] is [0], the cube stays at the origin, and
    [frameId] holds the handle of the most recent request. *)
Theorem spin_cube_invariant (el : Element) (h : Z) (evs : list SpinLoop.Event)
    (e : SpinLoop.Event) :
  let s := SpinLoop.run evs (SpinLoop.mount el h) in
  let rot := rotation (Spin.cube s) in
  Vector3.x rot = Vector3.y rot /\ 0 < Vector3.x rot /\ Vector3.z rot = 0 /\
  position (Spin.cube s) = Vector3.set 0 0 0 /\
  Spin.frameId s = SpinLoop.last_handle h evs /\
  (forall h',
     rotation (Spin.cube (Spin.animate h' s)) =
       Vector3.set (Vector3.x rot + 0.01) (Vector3.y rot + 0.01) (Vector3.z rot) /\
     position (Spin.cube (Spin.animate h' s)) = position (Spin.cube s) /\
     Spin.camera (Spin.animate h' s) = Spin.camera s /\
     Spin.renderer (Spin.animate h' s) = Spin.renderer s /\
     Spin.frameId (Spin.animate h' s) = h') /\
  (forall m,
     Spin.cube (Spin.handleResize m s) = Spin.cube s /\
     Spin.frameId (Spin.handleResize m s) = Spin.frameId s) /\
  Vector3.x rot <= Vector3.x (rotation (Spin.cube (SpinLoop.step s e))).
Proof.
  intros s rot.
  destruct (spin_invariant el h evs) as (Hxy & Hpos & Hz & Hp & Hid).
  fold s in Hxy, Hpos, Hz, Hp, Hid. fold rot in Hxy, Hpos, Hz.
  repeat (split; [assumption|]).
  split; [intros h'; apply spin_animate_rotation|].
  split; [intros m; apply spin_resize_cube|].
  destruct e as [h'|m]; cbn [SpinLoop.step].
  - destruct (spin_animate_rotation h' s) as (-> & _).
    cbn [Vector3.x]. fold rot. lra.
  - destruct (spin_resize_cube m s) as (-> & _). fold rot. lra.
Qed.

(** ** Set-up, delivery of events and teardown *)

Lemma refreshes_snoc ins i :
  refreshes (ins ++ [i]) =
  (refreshes ins + match i with Browser.Refresh => 1 | _ => 0 end)%nat.
Proof.
  induction ins as [|[] ins IH]; simpl; try (destruct i; reflexivity); lia.
Qed.

Lemma falling_run_snoc ins i c :
  Falling.run (ins ++ [i]) c = Falling.deliver (Falling.run ins c) i.
Proof. unfold Falling.run. now rewrite fold_left_app. Qed.

Lemma falling_browser_succ cs h n :
  snd (Browser.requestAnimationFrame
         (Browser.takeRequests (falling_browser cs h n))) =
  falling_browser cs h (n + 1).
Proof.
  unfold falling_browser; simpl. rewrite Nat2Z.inj_add. simpl Z.of_nat.
  f_equal; [f_equal|]; lia.
Qed.

Lemma falling_mounted el cs h ins :
  Falling.run ins (Falling.mk (mount el) (falling_browser cs h 0)) =
  Falling.mk (run (map Falling.event_of ins) (mount el))
    (falling_browser cs h (refreshes ins)).
Proof.
  induction ins as [|i ins IH] using rev_ind; [reflexivity|].
  rewrite falling_run_snoc, IH, map_app, refreshes_snoc.
  simpl map. rewrite run_snoc.
  destruct i as [|key|m]; cbn [Falling.event_of step].
  - unfold Falling.deliver. cbn [Falling.browser Falling.state].
    change (Browser.requests (falling_browser cs h (refreshes ins)))
      with [(h + Z.of_nat (refreshes ins))%Z].
    cbn [fold_left]. unfold Falling.frameCallback.
    cbn [Falling.browser Falling.state].
    rewrite (surjective_pairing (Browser.requestAnimationFrame _)).
    now rewrite falling_browser_succ.
  - rewrite Nat.add_0_r. reflexivity.
  - rewrite Nat.add_0_r. reflexivity.
Qed.

(** X13: while the falling component is mounted every input the browser
    delivers is handled: set up on a host element in a browser where
    nothing is registered yet, the component appends the canvas, registers
    both listeners and keeps exactly one frame requested, and its state
    after any inputs is the state the event loop [run] computes from the
    corresponding events.  Without a host element the effect sets up
    nothing. *)
Theorem falling_effect_mounts (el : Element) (cs : list Browser.Node) (h : Z)
    (ins : list Browser.Input) (b : Browser.t) :
  Falling.effect None b = None /\
  Falling.effect (Some el) (Browser.fresh cs h) =
    Some (Falling.mk (mount el) (falling_browser cs h 0)) /\
  let c := Falling.run ins (Falling.mk (mount el) (falling_browser cs h 0)) in
  Falling.state c = run (map Falling.event_of ins) (mount el) /\
  Browser.listeners (Falling.browser c) =
    [Browser.KeydownListener; Browser.ResizeListener] /\
  Browser.requests (Falling.browser c) = [(h + Z.of_nat (refreshes ins))%Z] /\
  Browser.children (Falling.browser c) = cs ++ [Browser.Canvas] /\
  Browser.disposed (Falling.browser c) = [].
Proof.
  split; [reflexivity|].
  split.
  { unfold Falling.effect, Browser.fresh, falling_browser, mount.
    simpl. rewrite Z.add_0_r. reflexivity. }
  rewrite falling_mounted. simpl. auto.
Qed.

Lemma falling_cleanup_browser m s cs h n :
  Falling.cleanup m (Falling.mk s (falling_browser cs h n)) =
  Falling.mk s (falling_browser_after (children_after m cs) (h + Z.of_nat n)).
Proof. destruct m; reflexivity. Qed.

Lemma falling_after_succ cs z :
  snd (Browser.requestAnimationFrame
         (Browser.takeRequests (falling_browser_after cs z))) =
  falling_browser_after cs (z + 1).
Proof. reflexivity. Qed.

Lemma falling_unmounted s cs z ins :
  Falling.run ins (Falling.mk s (falling_browser_after cs z)) =
  Falling.mk (run (without_resizes (map Falling.event_of ins)) s)
    (falling_browser_after cs (z + Z.of_nat (refreshes ins))).
Proof.
  induction ins as [|i ins IH] using rev_ind.
  - simpl. now rewrite Z.add_0_r.
  - rewrite falling_run_snoc, IH, map_app, refreshes_snoc.
    simpl map. rewrite without_resizes_snoc.
    destruct i as [|key|m]; cbn [Falling.event_of].
    + rewrite run_snoc_frame.
      unfold Falling.deliver. cbn [Falling.browser Falling.state].
      change (Browser.requests (falling_browser_after cs ?x)) with [x].
      cbn [fold_left]. unfold Falling.frameCallback.
      cbn [Falling.browser Falling.state].
      rewrite (surjective_pairing (Browser.requestAnimationFrame _)).
      rewrite falling_after_succ. do 2 f_equal.
      rewrite Nat2Z.inj_add. simpl Z.of_nat. lia.
    + rewrite run_snoc, Nat.add_0_r. reflexivity.
    + rewrite app_nil_r, Nat.add_0_r. reflexivity.
Qed.

(** X14: the cleanup of the falling component removes the [resize] listener
    and disposes the renderer, both geometries and both materials, but it
    neither removes the [keydown] listener nor cancels the frame request:
    after it the browser still has one frame requested, and display
    refreshes and key presses keep driving the state exactly as before,
    while resizes are no longer delivered. *)
Theorem falling_cleanup_keeps_running (el : Element) (cs : list Browser.Node)
    (h : Z) (ins ins' : list Browser.Input) (m : MountRef) :
  let c := Falling.run ins (Falling.mk (mount el) (falling_browser cs h 0)) in
  let c' := Falling.cleanup m c in
  Falling.state c' = Falling.state c /\
  Browser.listeners (Falling.browser c') = [Browser.KeydownListener] /\
  Browser.requests (Falling.browser c') = [(h + Z.of_nat (refreshes ins))%Z] /\
  Browser.disposed (Falling.browser c') =
    [Browser.TheRenderer; Browser.Geometry; Browser.Material;
     Browser.LargeCubeGeometry; Browser.LargeCubeMaterial] /\
  Falling.state (Falling.run ins' c') =
    run (without_resizes (map Falling.event_of ins')) (Falling.state c) /\
  length (Browser.requests (Falling.browser (Falling.run ins' c'))) = 1%nat.
Proof.
  intros c c'. unfold c', c.
  rewrite falling_mounted, falling_cleanup_browser, falling_unmounted.
  simpl. auto 10.
Qed.

(** *** The spinning variant *)

Lemma spinning_run_snoc ins i c :
  Spinning.run (ins ++ [i]) c = Spinning.deliver (Spinning.run ins c) i.
Proof. unfold Spinning.run. now rewrite fold_left_app. Qed.

Lemma spinning_browser_succ cs h n :
  Browser.requestAnimationFrame
    (Browser.takeRequests (spinning_browser cs h n)) =
  ((h + Z.of_nat n + 1)%Z, spinning_browser cs h (n + 1)).
Proof.
  unfold spinning_browser, Browser.requestAnimationFrame; simpl.
  rewrite Nat2Z.inj_add. simpl Z.of_nat.
  f_equal. f_equal; [f_equal|]; lia.
Qed.

Lemma spinning_mounted el cs h ins :
  let c := Spinning.run ins
             (Spinning.mk (SpinLoop.mount el h) (spinning_browser cs h 0)) in
  Spinning.browser c = spinning_browser cs h (refreshes ins) /\
  Spin.frameId (Spinning.state c) = (h + Z.of_nat (refreshes ins))%Z.
Proof.
  induction ins as [|i ins IH] using rev_ind.
  - cbv zeta. cbn [Spinning.run fold_left Spinning.browser Spinning.state
                   refreshes].
    split; [reflexivity|]. simpl; lia.
  - cbv zeta in *. rewrite spinning_run_snoc, refreshes_snoc.
    destruct IH as (Hb & Hid).
    destruct i as [|key|m]; cbn [Spinning.deliver].
    + rewrite Hb.
      change (Browser.requests (spinning_browser cs h (refreshes ins)))
        with [(h + Z.of_nat (refreshes ins))%Z].
      cbn [fold_left]. unfold Spinning.frameCallback.
      cbn [Spinning.browser Spinning.state].
      rewrite spinning_browser_succ.
      cbn [Spinning.browser Spinning.state].
      split; [reflexivity|].
      cbn [Spin.animate Spin.frameId]. rewrite Nat2Z.inj_add. simpl. lia.
    + rewrite Nat.add_0_r. auto.
    + rewrite Nat.add_0_r, Hb.
      change (Browser.registered Browser.ResizeListener
                (spinning_browser cs h (refreshes ins))) with true.
      cbn [Spinning.browser Spinning.state].
      destruct (spin_resize_cube m
                  (Spinning.state (Spinning.run ins
                     (Spinning.mk (SpinLoop.mount el h) (spinning_browser cs h 0)))))
        as (Hc & Hf).
      rewrite Hf. auto.
Qed.

Lemma removeFirstChild_iter n : forall b,
  (length (Browser.children b) <= n)%nat ->
  Nat.iter n Browser.removeFirstChild b =
  Browser.mk (Browser.listeners b) (Browser.requests b) (Browser.nextRequest b)
    [] (Browser.disposed b).
Proof.
  induction n as [|n IH]; intros b Hlen.
  - destruct b as [l r z [|x cs] d]; simpl in *; [reflexivity|lia].
  - rewrite Nat.iter_succ_r, IH; [reflexivity|].
    destruct b as [l r z [|x cs] d]; simpl in *; lia.
Qed.

Lemma removeChildren_empties b :
  Spinning.removeChildren b =
  Browser.mk (Browser.listeners b) (Browser.requests b) (Browser.nextRequest b)
    [] (Browser.disposed b).
Proof. unfold Spinning.removeChildren. now apply removeFirstChild_iter. Qed.

Lemma Spinning_eta c : c = Spinning.mk (Spinning.state c) (Spinning.browser c).
Proof. now destruct c. Qed.

Lemma spinning_cleanup_browser m s cs h n :
  Spin.frameId s = (h + Z.of_nat n)%Z ->
  Spinning.cleanup m (Spinning.mk s (spinning_browser cs h n)) =
  Spinning.mk s
    (Browser.mk [] [] (h + Z.of_nat n + 1)
       (match m with Some _ => [] | None => cs ++ [Browser.Canvas] end)
       [Browser.TheRenderer]).
Proof.
  intros Hid. unfold Spinning.cleanup. cbn [Spinning.state Spinning.browser].
  rewrite Hid. f_equal.
  assert (Hb : Browser.dispose Browser.TheRenderer
                 (Browser.cancelAnimationFrame (h + Z.of_nat n)
                    (Browser.removeEventListener Browser.ResizeListener
                       (spinning_browser cs h n))) =
               Browser.mk [] [] (h + Z.of_nat n + 1) (cs ++ [Browser.Canvas])
                 [Browser.TheRenderer]).
  { unfold spinning_browser, Browser.dispose, Browser.cancelAnimationFrame,
      Browser.removeEventListener; simpl.
    rewrite Z.eqb_refl. reflexivity. }
  rewrite Hb. destruct m; [|reflexivity].
  now rewrite removeChildren_empties.
Qed.

(** X15: the cleanup of the spinning component cancels the one frame that is
    requested (its handle is the one [frameId] holds), removes the
    [resize] listener, disposes the renderer and empties the host element;
    afterwards nothing is registered or requested, and no input, whatever
    it is, changes the component any more. *)
Theorem spinning_cleanup_stops (el : Element) (cs : list Browser.Node) (h : Z)
    (ins ins' : list Browser.Input) (el' : Element) (b : Browser.t) :
  Spinning.effect None b = None /\
  Spinning.effect (Some el) (Browser.fresh cs h) =
    Some (Spinning.mk (SpinLoop.mount el h) (spinning_browser cs h 0)) /\
  let c := Spinning.run ins
             (Spinning.mk (SpinLoop.mount el h) (spinning_browser cs h 0)) in
  Browser.requests (Spinning.browser c) = [Spin.frameId (Spinning.state c)] /\
  let c' := Spinning.cleanup (Some el') c in
  Spinning.state c' = Spinning.state c /\
  Browser.listeners (Spinning.browser c') = [] /\
  Browser.requests (Spinning.browser c') = [] /\
  Browser.children (Spinning.browser c') = [] /\
  Browser.disposed (Spinning.browser c') = [Browser.TheRenderer] /\
  Spinning.run ins' c' = c'.
Proof.
  split; [reflexivity|].
  split.
  { unfold Spinning.effect, Browser.fresh, spinning_browser. simpl.
    rewrite Z.add_0_r. reflexivity. }
  intros c.
  destruct (spinning_mounted el cs h ins) as (Hb & Hid). fold c in Hb, Hid.
  split; [rewrite Hb, Hid; reflexivity|].
  intros c'.
  assert (Hc' : c' = Spinning.mk (Spinning.state c)
                       (Browser.mk [] [] (h + Z.of_nat (refreshes ins) + 1) []
                          [Browser.TheRenderer])).
  { unfold c'. rewrite (Spinning_eta c), Hb.
    now rewrite (spinning_cleanup_browser _ _ _ _ _ Hid). }
  rewrite Hc'. cbn [Spinning.state Spinning.browser Browser.listeners
                    Browser.requests Browser.children Browser.disposed].
  repeat (split; [reflexivity|]).
  induction ins' as [|i ins' IH] using rev_ind; [reflexivity|].
  rewrite spinning_run_snoc, IH. destruct i; reflexivity.
Qed.

(** ** The trajectory of the fall *)

Lemma in_the_air_initial el : in_the_air (initial el).
Proof. intros _. simpl. repeat split; auto. Qed.

Lemma in_the_air_animate s : in_the_air s -> in_the_air (animate s).
Proof.
  intros Hair Hl'.
  destruct (landed s) eqn:Hl.
  { destruct (animate_landed s Hl) as (_ & Hl''). congruence. }
  destruct (Hair Hl) as (Hnone & Hx & Hz & Hpx & Hpz & Hry & _).
  destruct (fall_keeps s) as (Hfr & _).
  unfold animate in *. rewrite roll_idle in * by congruence.
  revert Hl'. unfold fall. rewrite Hl. simpl.
  destruct (Num.ltb (time s + 1 / 60) fallDuration); simpl; [|discriminate].
  intros _. repeat split; auto.
Qed.

Lemma in_the_air_rollCube dx dz s : in_the_air s -> in_the_air (rollCube dx dz s).
Proof.
  intros Hair. destruct (acceptable_dec dx dz s) as [Ha | Hn].
  - intros Hl. rewrite (rollCube_accept _ _ _ Ha) in Hl. simpl in Hl.
    destruct Ha as (Hl' & _). congruence.
  - now rewrite rollCube_reject.
Qed.

Lemma in_the_air_handleResize m s : in_the_air s -> in_the_air (handleResize m s).
Proof.
  unfold in_the_air.
  destruct (handleResize_keeps m s) as (-> & -> & -> & -> & -> & ->). auto.
Qed.

Lemma reachable_in_the_air s : reachable s -> in_the_air s.
Proof.
  apply reachable_induction.
  - apply in_the_air_initial.
  - apply in_the_air_animate.
  - intros dx dz t _. apply in_the_air_rollCube.
  - apply in_the_air_handleResize.
Qed.

(** X11: the fall: after [n] frame updates with [n < 90], whatever keys were
    pressed and however the window was resized, the cube is still on its
    initial cell [(0, -1)] with no roll in progress, it is straight above
    that cell at height
    [startY - (startY - targetY) * easeOutBounce (time / fallDuration)] with
    [time = n / 60], and it wobbles by [sin (3 time) * 0.05] about x and
    [cos (2 time) * 0.05] about z. *)
Theorem fall_trajectory (el : Element) (evs : list Event) :
  let s := run evs (mount el) in
  let n := S (frames evs) in
  (n < 90)%nat ->
  time s = INR n / 60 /\ landed s = false /\
  rolling s = None /\ cubeX s = 0 /\ cubeZ s = -1 /\
  position (cube s) =
    Vector3.set 0
      (startY - (startY - targetY) * easeOutBounce (time s / fallDuration))
      (-1) /\
  rotation (cube s) =
    Vector3.set (sin (time s * 3) * 0.05) 0 (cos (time s * 2) * 0.05).
Proof.
  intros s n Hn.
  assert (Hc : clock n s).
  { unfold s, n, mount. change (S (frames evs)) with (1 + frames evs)%nat.
    apply clock_run, clock_animate, clock_initial. }
  destruct Hc as (Ht & Hl).
  replace (Nat.min n 90) with n in Ht by lia.
  replace (90 <=? n)%nat with false in Hl by (symmetry; apply Nat.leb_gt; lia).
  assert (Hreach : reachable s) by (exists el, evs; now left).
  destruct (reachable_in_the_air s Hreach Hl)
    as (Hnone & Hx & Hz & Hpx & Hpz & Hry & Hpose).
  assert (Hpos : 0 < time s).
  { rewrite Ht. unfold n. rewrite S_INR. pose proof (pos_INR (frames evs)). lra. }
  destruct Hpose as [H0 | (Hy & Hrx & Hrz)]; [lra|].
  unfold largeCubeSize in *.
  split; [exact Ht|]. split; [exact Hl|]. split; [exact Hnone|].
  split; [exact Hx|]. split; [lra|].
  split.
  - destruct (position (cube s)) as [px py pz]. simpl in *.
    f_equal; [exact Hpx|exact Hy|lra].
  - destruct (rotation (cube s)) as [rx ry rz]. simpl in *.
    f_equal; assumption.
Qed.

(** ** The host element after teardown *)

(** X16: mounting appends the canvas to the children of the host element.  The
    cleanup of the falling component removes the first child when the ref
    is still set: that empties a host that was empty before the mount, but
    in a host that already had children it removes the oldest of them and
    leaves the canvas.  The cleanup of the spinning component removes every
    child.  Either cleanup leaves the children alone when the ref is
    empty. *)
Theorem host_children_after_cleanup (el el' : Element)
    (n : Browser.Node) (cs : list Browser.Node) (h : Z)
    (ins : list Browser.Input) :
  let fall0 := Falling.mk (mount el) (falling_browser [] h 0) in
  let fall1 := Falling.mk (mount el) (falling_browser (n :: cs) h 0) in
  let spin1 := Spinning.mk (SpinLoop.mount el h) (spinning_browser (n :: cs) h 0) in
  let after_falling m c :=
    Browser.children (Falling.browser (Falling.cleanup m (Falling.run ins c))) in
  let after_spinning m c :=
    Browser.children (Spinning.browser (Spinning.cleanup m (Spinning.run ins c))) in
  after_falling (Some el') fall0 = [] /\
  after_falling (Some el') fall1 = cs ++ [Browser.Canvas] /\
  after_falling None fall1 = n :: cs ++ [Browser.Canvas] /\
  after_spinning (Some el') spin1 = [] /\
  after_spinning None spin1 = n :: cs ++ [Browser.Canvas].
Proof.
  cbv beta zeta.
  rewrite !falling_mounted, !falling_cleanup_browser.
  repeat (split; [reflexivity|]).
  destruct (spinning_mounted el (n :: cs) h ins) as (Hb & Hid).
  rewrite (Spinning_eta (Spinning.run ins _)), Hb.
  rewrite !(spinning_cleanup_browser _ _ _ _ _ Hid).
  split; reflexivity.
Qed.

(** ** The further theorems at sample inputs *)

Lemma just_landed_accepts_left el :
  acceptable (-1) 0 (run (repeat Frame 90) (mount el)).
Proof.
  destruct (just_landed el) as (Hl & Hr & Hx & Hz & _).
  unfold acceptable, in_bounds. rewrite bound_eq, Hx, Hz. unfold cubeSize.
  repeat split; auto; apply Rabs_le; lra.
Qed.

Lemma roll_requested_rolling :
  rolling (run roll_requested (mount host)) = Some (Rolling.mk (-1) 0 0).
Proof.
  unfold roll_requested. rewrite run_snoc. cbn [step].
  rewrite onKeyDown_a, (rollCube_accept _ _ _ (just_landed_accepts_left host)).
  reflexivity.
Qed.

Lemma roll_requested_reachable : reachable (run roll_requested (mount host)).
Proof. exists host, roll_requested. now left. Qed.

Lemma cube_height_bounds_witness :
  let s := run roll_requested (mount host) in
  reachable s /\ cubeSize / 2 <= Vector3.y (position (cube s)) <= 8.
Proof.
  intros s. split; [exact roll_requested_reachable|].
  exact (cube_height_bounds s roll_requested_reachable).
Defined.

Lemma mesh_follows_grid_witness :
  let s := run roll_requested (mount host) in
  reachable s /\
  Rabs (Vector3.x (position (cube s)) - cubeX s) <= cubeSize / 2.
Proof.
  intros s. split; [exact roll_requested_reachable|].
  destruct (mesh_follows_grid s roll_requested_reachable) as (_ & Hroll).
  destruct (Hroll _ roll_requested_rolling) as (Hx & _). exact Hx.
Defined.

Lemma cube_rotation_bounds_witness :
  let s := run roll_requested (mount host) in
  reachable s /\ Vector3.y (rotation (cube s)) = 0.
Proof.
  intros s. split; [exact roll_requested_reachable|].
  exact (proj1 (cube_rotation_bounds s roll_requested_reachable)).
Defined.

Lemma roll_in_progress_witness :
  let s := run roll_requested (mount host) in
  reachable s /\ rolling s = Some (Rolling.mk (-1) 0 0) /\ landed s = true.
Proof.
  intros s. split; [exact roll_requested_reachable|].
  split; [exact roll_requested_rolling|].
  exact (proj1 (roll_in_progress s _ roll_requested_reachable
                  roll_requested_rolling)).
Defined.

Lemma roll_there_and_back_witness :
  let s := run (repeat Frame 90) (mount host) in
  reachable s /\ acceptable (-1) 0 s /\
  run (repeat Frame 10)
    (rollCube (- -1) (- 0) (run (repeat Frame 10) (rollCube (-1) 0 s))) = s.
Proof.
  intros s.
  assert (Hreach : reachable s) by (exists host, (repeat Frame 90); now left).
  split; [exact Hreach|]. split; [exact (just_landed_accepts_left host)|].
  exact (proj2 (roll_there_and_back (-1) 0 s Hreach
                  (just_landed_accepts_left host))).
Defined.

Lemma every_cell_reachable_witness :
  (Z.abs 1 <= 1)%Z /\ (Z.abs 1 <= 1)%Z /\
  cubeX (run (repeat Frame 90 ++ route (keys_to 1 1)) (mount host)) = 1 /\
  cubeZ (run (repeat Frame 90 ++ route (keys_to 1 1)) (mount host)) = 1.
Proof.
  assert (H1 : (Z.abs 1 <= 1)%Z) by (simpl; lia).
  split; [exact H1|]. split; [exact H1|].
  destruct (every_cell_reachable host (initial host) 1 1 H1 H1)
    as (_ & _ & _ & _ & _ & Hx & Hz).
  split; [exact Hx|exact Hz].
Defined.

Lemma fall_trajectory_witness :
  (S (frames [KeyDown "a"; Frame]) < 90)%nat /\
  cubeX (run [KeyDown "a"; Frame] (mount host)) = 0 /\
  rolling (run [KeyDown "a"; Frame] (mount host)) = None.
Proof.
  assert (Hn : (S (frames [KeyDown "a"; Frame]) < 90)%nat) by (simpl; lia).
  split; [exact Hn|].
  destruct (fall_trajectory host [KeyDown "a"; Frame] Hn)
    as (_ & _ & Hr & Hx & _).
  split; [exact Hx|exact Hr].
Defined.

